(** * Moviefy: the conversion session of [src/app/page.tsx]

    A shallow embedding of the [Home] component's logic: the file-name
    derivations, the ffmpeg argument list, the progress handler, the React
    state with the browser's object-URL registry and the engine's virtual
    file system, the three event handlers ([handleUpload],
    [convertToVideo], the "New Project" click), and the page as a machine
    that reacts to its events.

    Modelling conventions.
    - JavaScript strings are Rocq [string]s; file names are taken to consist
      of ASCII code units, so [toLowerCase] acts on 'A'..'Z' only.
    - JavaScript numbers are the finite doubles, taken as the rationals
      they denote; a product is the exact product rounded to the nearest
      binary64 value, ties to even.  NaN and the infinities have no
      counterpart, and a negative zero is zero.
    - Object URLs are natural numbers handed out by a counter.
    - The engine's virtual file system is a finite map from paths to bytes. *)

From Stdlib Require Import String Ascii ZArith QArith Qround Qpower Qabs List Lia Lqa.
From Stdlib Require PrimFloat FloatOps SpecFloat.
From stdpp Require Import gmap strings.
Import ListNotations.

Local Open Scope Z_scope.

(** ** JavaScript string primitives used by the component *)

Module JS.

Definition lower_ascii (c : ascii) : ascii :=
  let n := N_of_ascii c in
  if ((65 <=? n) && (n <=? 90))%N then ascii_of_N (n + 32) else c.

(** [String.prototype.toLowerCase] on ASCII code units. *)
Fixpoint toLowerCase (s : string) : string :=
  match s with
  | EmptyString => EmptyString
  | String c r => String (lower_ascii c) (toLowerCase r)
  end.

(** [s.split(sep)] for a one-character separator: never the empty array. *)
Fixpoint split (sep : ascii) (s : string) : list string :=
  match s with
  | EmptyString => [EmptyString]
  | String c r =>
      if Ascii.eqb c sep then EmptyString :: split sep r
      else match split sep r with
           | h :: t => String c h :: t
           | [] => [String c EmptyString]
           end
  end.

(** [Array.prototype.pop]'s return value: [undefined] on the empty array. *)
Fixpoint pop (l : list string) : option string :=
  match l with
  | [] => None
  | [x] => Some x
  | _ :: t => pop t
  end.

Fixpoint lastIndexOf_from (c : ascii) (s : string) (i acc : Z) : Z :=
  match s with
  | EmptyString => acc
  | String d r => lastIndexOf_from c r (i + 1) (if Ascii.eqb d c then i else acc)
  end.

(** [s.lastIndexOf(c)]: the index of the last occurrence, or -1. *)
Definition lastIndexOf (c : ascii) (s : string) : Z :=
  lastIndexOf_from c s 0 (-1).

(** [s.substring(a, b)]: both indices clamped to [0, length], swapped when
    out of order. *)
Definition substring (s : string) (a b : Z) : string :=
  let len := Z.of_nat (String.length s) in
  let a' := Z.max 0 (Z.min a len) in
  let b' := Z.max 0 (Z.min b len) in
  let lo := Z.min a' b' in
  let hi := Z.max a' b' in
  String.substring (Z.to_nat lo) (Z.to_nat (hi - lo)) s.

(** [x || d] on strings: the empty string is falsy. *)
Definition or_else (x d : string) : string :=
  match x with
  | EmptyString => d
  | _ => x
  end.

(** *** Binary64 arithmetic on rationals *)

Definition pow2 (k : Z) : Q := (2 ^ k)%Q.

(** The exponent of the binade of [x]: floor (log2 |x|), taken on
    |x| * 2^1100 where the integer logarithm applies.  Below 2^-1100 the
    result is -1100, far inside the subnormal range where the quantum no
    longer depends on it. *)
Definition binade (x : Q) : Z :=
  Z.log2 (Qfloor (Qabs x * pow2 1100)) - 1100.

(** The exponent of the spacing of the doubles around [x]: 53 significant
    bits, and 2^-1074 throughout the subnormal range. *)
Definition quantum (x : Q) : Z := Z.max (binade x - 52) (-1074).

(** Rounding to the nearest integer, ties to the even one. *)
Definition roundHalfEven (y : Q) : Z :=
  let f := Qfloor y in
  match (y - inject_Z f ?= 1 # 2)%Q with
  | Lt => f
  | Gt => f + 1
  | Eq => if Z.even f then f else f + 1
  end.

(** Rounding to the nearest multiple of 2^k. *)
Definition roundTo (k : Z) (x : Q) : Q :=
  (inject_Z (roundHalfEven (x * pow2 (- k))) * pow2 k)%Q.

(** The double nearest to [x] (round to nearest, ties to even), for [x]
    short of the overflow threshold. *)
Definition toDouble (x : Q) : Q := roundTo (quantum x) x.

(** [x * y] on doubles. *)
Definition times (x y : Q) : Q := toDouble (x * y).

(** The rational a finite kernel float denotes. *)
Definition ofFloat (f : PrimFloat.float) : option Q :=
  match FloatOps.Prim2SF f with
  | SpecFloat.S754_zero _ => Some 0%Q
  | SpecFloat.S754_finite sign m e =>
      Some ((if sign then inject_Z (Z.neg m) else inject_Z (Z.pos m)) * pow2 e)%Q
  | _ => None
  end.

(** Whether [times] gives on two finite kernel floats what the kernel's
    binary64 multiplication gives. *)
Definition timesAgrees (a b : PrimFloat.float) : bool :=
  match ofFloat a, ofFloat b, ofFloat (PrimFloat.mul a b) with
  | Some x, Some y, Some z => Qeq_bool (times x y) z
  | _, _, _ => false
  end.

(** [Math.round]: the nearest integer, ties towards plus infinity. *)
Definition Math_round (x : Q) : Z := Qfloor (x + (1 # 2)).

End JS.

(** ** Files and derived names *)

Record File := mkFile { name : string; bytes : list Byte.byte }.

Definition dot : ascii := "."%char.

(** [image.name.split('.').pop()?.toLowerCase() || 'png'] *)
Definition inputExt (f : File) : string :=
  match option_map JS.toLowerCase (JS.pop (JS.split dot (name f))) with
  | Some e => JS.or_else e "png"
  | None => "png"
  end.

Definition inputPath (f : File) : string := "input." +:+ inputExt f.

Definition outputPath : string := "output.mp4".

Definition isGif (f : File) : bool := String.eqb (inputExt f) "gif".

(** The argument list handed to [ffmpeg.exec]. *)
Definition args (f : File) : list string :=
  ["-y"] ++
  (if isGif f then [] else ["-f"; "image2"]) ++
  ["-loop"; "1";
   "-i"; inputPath f;
   "-t"; "1";
   "-c:v"; "libx264";
   "-preset"; "medium";
   "-crf"; "18";
   "-pix_fmt"; "yuv420p";
   "-vf"; "scale='trunc(iw/2)*2:trunc(ih/2)*2'";
   outputPath].

(** The [download] attribute of the result link. *)
Definition downloadName (image : option File) : string :=
  match image with
  | Some f =>
      JS.or_else (JS.substring (name f) 0 (JS.lastIndexOf dot (name f))) (name f)
      +:+ ".mp4"
  | None => "moviefy-video.mp4"
  end.

(** The ["progress"] event handler's argument to [setProgress]. *)
Definition onProgress (p : Q) : Z := Z.min 100 (JS.Math_round (JS.times p 100)).

(** ** React state, object URLs and the engine's virtual file system *)

Definition URL := nat.

(** The seven [useState] cells of [Home]. *)
Record UI := mkUI {
  loaded : bool;
  loading : bool;
  image : option File;
  previewUrl : option URL;
  videoUrl : option URL;
  error : option string;
  progress : Z
}.

Definition setLoaded (b : bool) (u : UI) : UI :=
  mkUI b (loading u) (image u) (previewUrl u) (videoUrl u) (error u) (progress u).
Definition setLoading (b : bool) (u : UI) : UI :=
  mkUI (loaded u) b (image u) (previewUrl u) (videoUrl u) (error u) (progress u).
Definition setImage (i : option File) (u : UI) : UI :=
  mkUI (loaded u) (loading u) i (previewUrl u) (videoUrl u) (error u) (progress u).
Definition setPreviewUrl (p : option URL) (u : UI) : UI :=
  mkUI (loaded u) (loading u) (image u) p (videoUrl u) (error u) (progress u).
Definition setVideoUrl (v : option URL) (u : UI) : UI :=
  mkUI (loaded u) (loading u) (image u) (previewUrl u) v (error u) (progress u).
Definition setError (e : option string) (u : UI) : UI :=
  mkUI (loaded u) (loading u) (image u) (previewUrl u) (videoUrl u) e (progress u).
Definition setProgress (p : Z) (u : UI) : UI :=
  mkUI (loaded u) (loading u) (image u) (previewUrl u) (videoUrl u) (error u) p.

(** The component's state together with what it shares with the browser and
    the engine: the set of object URLs that are still live, the next URL
    [URL.createObjectURL] hands out, whether [ffmpegRef.current] is set, the
    engine's virtual file system and the log of [ffmpeg.exec] calls. *)
Record World := mkWorld {
  ui : UI;
  live : gset URL;
  nextUrl : URL;
  ffmpegRef : bool;
  fs : gmap string (list Byte.byte);
  execLog : list (list string)
}.

Definition withUI (g : UI -> UI) (w : World) : World :=
  mkWorld (g (ui w)) (live w) (nextUrl w) (ffmpegRef w) (fs w) (execLog w).

Definition revokeObjectURL (u : URL) (w : World) : World :=
  mkWorld (ui w) (live w ∖ {[u]}) (nextUrl w) (ffmpegRef w) (fs w) (execLog w).

Definition createObjectURL (w : World) : URL * World :=
  (nextUrl w,
   mkWorld (ui w) ({[nextUrl w]} ∪ live w) (S (nextUrl w)) (ffmpegRef w) (fs w)
           (execLog w)).

(** [if (u) URL.revokeObjectURL(u)] *)
Definition revokeIfSet (u : option URL) (w : World) : World :=
  match u with
  | Some x => revokeObjectURL x w
  | None => w
  end.

(** ** Thrown values and the external collaborators *)

(** What a [catch] clause can receive: an [Error] object or any other value,
    the latter given by its [String(err)] rendering. *)
Inductive Thrown :=
| ErrorObj (message : string)
| OtherValue (rendering : string).

(** [err instanceof Error ? err.message : String(err)] *)
Definition errMsg (t : Thrown) : string :=
  match t with
  | ErrorObj m => m
  | OtherValue r => r
  end.

(** One call of [ffmpeg.exec]: the progress fractions emitted while it ran,
    the file system it leaves, and its exit code or the value it threw. *)
Record ExecOutcome := mkExec {
  emitted : list Q;
  fsAfter : gmap string (list Byte.byte);
  result : Thrown + Z
}.

(** The parts the component imports and does not define. *)
Record Env := mkEnv {
  fetchFile : File -> Thrown + list Byte.byte;
  exec : list string -> gmap string (list Byte.byte) -> ExecOutcome;
  fsError : string -> Thrown
}.

(** ** A state-and-exception monad for the body of [convertToVideo] *)

Definition M (A : Type) : Type := World -> (Thrown + A) * World.

Definition ret {A} (a : A) : M A := fun w => (inr a, w).
Definition throw {A} (t : Thrown) : M A := fun w => (inl t, w).
Definition bind {A B} (m : M A) (k : A -> M B) : M B :=
  fun w => match m w with
           | (inr a, w') => k a w'
           | (inl t, w') => (inl t, w')
           end.
Definition modify (g : World -> World) : M unit := fun w => (inr tt, g w).

(** [try { m } catch (e) { }] *)
Definition tryIgnore (m : M unit) : M unit :=
  fun w => (inr tt, snd (m w)).

Notation "'let!' x ':=' m 'in' k" := (bind m (fun x => k))
  (at level 10, x binder, m at level 100, k at level 200).

Section Session.

Variable E : Env.

Definition liftResult {A} (r : Thrown + A) : M A :=
  match r with
  | inl t => throw t
  | inr a => ret a
  end.

Definition writeFile (path : string) (d : list Byte.byte) : M unit :=
  modify (fun w => mkWorld (ui w) (live w) (nextUrl w) (ffmpegRef w)
                           (<[path := d]> (fs w)) (execLog w)).

(** [ffmpeg.readFile] and [ffmpeg.deleteFile] reject when the path is not
    in the file system; [ffmpeg.writeFile] creates or replaces the entry. *)
Definition readFile (path : string) : M (list Byte.byte) :=
  fun w => match fs w !! path with
           | Some d => (inr d, w)
           | None => (inl (fsError E path), w)
           end.

Definition deleteFile (path : string) : M unit :=
  fun w => match fs w !! path with
           | Some _ => (inr tt, mkWorld (ui w) (live w) (nextUrl w) (ffmpegRef w)
                                        (delete path (fs w)) (execLog w))
           | None => (inl (fsError E path), w)
           end.

(** The progress events of one run, delivered in order to the handler
    registered by the loading effect. *)
Definition deliver (ps : list Q) (u : UI) : UI :=
  fold_left (fun u p => setProgress (onProgress p) u) ps u.

Definition execM (a : list string) : M Z :=
  fun w =>
    let o := exec E a (fs w) in
    (result o,
     mkWorld (deliver (emitted o) (ui w)) (live w) (nextUrl w) (ffmpegRef w)
             (fsAfter o) (execLog w ++ [a])).

Definition newObjectURL : M URL := fun w => let (u, w') := createObjectURL w in (inr u, w').

(** The [try] block of [convertToVideo] from its first [await] on. *)
Definition convertTry (f : File) : M unit :=
  let! fileData := liftResult (fetchFile E f) in
  let! _ := writeFile (inputPath f) fileData in
  let! _ := execM (args f) in
  let! data := readFile outputPath in
  let! url := newObjectURL in
  let! _ := modify (withUI (setVideoUrl (Some url))) in
  tryIgnore (let! _ := deleteFile (inputPath f) in deleteFile outputPath).

Definition failureMessage (t : Thrown) : string :=
  "Conversion failed (" +:+ errMsg t +:+ "). Please try again with a different image.".

(** The [catch] and [finally] clauses around [convertTry]. *)
Definition convertRest (f : File) (w : World) : World :=
  match convertTry f w with
  | (inr _, w') => withUI (setLoading false) w'
  | (inl t, w') =>
      withUI (setLoading false) (withUI (setError (Some (failureMessage t))) w')
  end.

(** [convertToVideo] up to its first [await]: the two early returns, the
    three setters, and the revocation of the previous video URL.  The second
    component is the captured image when the call goes on to the engine. *)
Definition convertBegin (w : World) : World * option File :=
  match image (ui w), loaded (ui w) with
  | Some f, true =>
      let w1 := withUI (setError None)
                  (withUI (setProgress 0) (withUI (setLoading true) w)) in
      if ffmpegRef w1
      then (revokeIfSet (videoUrl (ui w)) w1, Some f)
      else (w1, None)
  | _, _ => (w, None)
  end.

Definition convertToVideo (w : World) : World :=
  match convertBegin w with
  | (w', Some f) => convertRest f w'
  | (w', None) => w'
  end.

(** [disabled={!image || !loaded || loading}] *)
Definition createDisabled (u : UI) : bool :=
  negb (bool_decide (is_Some (image u))) || negb (loaded u) || loading u.

(** A click on the "Create Video" button, which is rendered only while
    [videoUrl] is unset and reacts only while it is not disabled. *)
Definition clickCreateBegin (w : World) : World * option File :=
  match videoUrl (ui w) with
  | None => if createDisabled (ui w) then (w, None) else convertBegin w
  | Some _ => (w, None)
  end.

Definition clickCreate (w : World) : World :=
  match clickCreateBegin w with
  | (w', Some f) => convertRest f w'
  | (w', None) => w'
  end.

End Session.

(** ** Handlers that do not touch the engine *)

(** The cleanup of the effect keyed on [previewUrl]: when a render commits
    a different preview URL, the one of the previous render is revoked. *)
Definition previewEffect (old : option URL) (w : World) : World :=
  if bool_decide (previewUrl (ui w) = old) then w else revokeIfSet old w.

(** [handleUpload]; the argument is [e.target.files?.[0]]. *)
Definition handleUpload (file : option File) (w : World) : World :=
  match file with
  | Some f =>
      let w1 := revokeIfSet (previewUrl (ui w)) w in
      let (url, w2) := createObjectURL w1 in
      withUI (setError None)
        (withUI (setVideoUrl None)
           (withUI (setImage (Some f)) (withUI (setPreviewUrl (Some url)) w2)))
  | None => w
  end.

Definition onChange (file : option File) (w : World) : World :=
  previewEffect (previewUrl (ui w)) (handleUpload file w).

(** The "New Project" button's [onClick]. *)
Definition newProject (w : World) : World :=
  let w1 := revokeIfSet (previewUrl (ui w)) w in
  withUI (setVideoUrl None) (withUI (setImage None) (withUI (setPreviewUrl None) w1)).

Definition onNewProject (w : World) : World :=
  previewEffect (previewUrl (ui w)) (newProject w).

(** The loading effect's outcome: [ffmpegRef.current] is set, and either
    [loaded] becomes true or the fixed message is shown. *)
Definition load (ok : bool) (w : World) : World :=
  let w1 := mkWorld (ui w) (live w) (nextUrl w) true (fs w) (execLog w) in
  if ok then withUI (setLoaded true) w1
  else withUI (setError (Some "Failed to initialize conversion engine. Please refresh.")) w1.

Definition initial : World :=
  mkWorld (mkUI false false None None None None 0) ∅ 0%nat false ∅ [].

(** ** Predicates and scenarios used in the statements *)

(** Whether a string contains a dot. *)
Fixpoint hasDot (s : string) : bool :=
  match s with
  | EmptyString => false
  | String c r => Ascii.eqb c dot || hasDot r
  end.


(** The integer arithmetic that the filter expression [trunc(x/2)*2]
    denotes for a non-negative dimension [x]. *)
Definition truncHalfTimes2 (x : Z) : Z := (x / 2) * 2.

(** A handle is referenced when one of the two URL cells holds it. *)
Definition referenced (w : World) (u : URL) : Prop :=
  previewUrl (ui w) = Some u \/ videoUrl (ui w) = Some u.

(** No leak: every object URL that is still live is held by a cell. *)
Definition noLeak (w : World) : Prop :=
  forall u, u ∈ live w -> referenced w u.

(** Registry discipline: live and referenced URLs were handed out before. *)
Definition registryOk (w : World) : Prop :=
  (forall u, u ∈ live w -> (u < nextUrl w)%nat) /\
  (forall u, referenced w u -> (u < nextUrl w)%nat).

(** A source image and two engines: one that encodes, one whose run emits
    half of its progress and then throws. *)
Definition photo : File := mkFile "photo.png" [Byte.x89; Byte.x50; Byte.x4e; Byte.x47].

Definition okEnv : Env :=
  mkEnv (fun f => inr (bytes f))
        (fun a m => mkExec [(1 # 4)%Q; (1 # 1)%Q] (<[outputPath := [Byte.x00]]> m) (inr 0))
        (fun _ => OtherValue "ErrnoError: FS error").

Definition failEnv : Env :=
  mkEnv (fun f => inr (bytes f))
        (fun a m => mkExec [(1 # 2)%Q] m (inl (ErrorObj "boom")))
        (fun _ => OtherValue "ErrnoError: FS error").

(** Engine ready and [photo] selected. *)
Definition hasSource : World := onChange (Some photo) (load true initial).

(** The same session after a conversion that succeeded. *)
Definition success : World := convertToVideo okEnv hasSource.

(** The same session while a first conversion is at its first [await]. *)
Definition inFlight : World := fst (convertBegin hasSource).

(** ** The page as an event-driven session *)

(** The two stretches of the [try] block of [convertToVideo]: up to
    [setVideoUrl], and the inner [try] that deletes the two files.  Between
    them the page is rendered with the video URL set while [loading] is
    still true. *)
Definition convertMain (E : Env) (f : File) : M unit :=
  let! fileData := liftResult (fetchFile E f) in
  let! _ := writeFile (inputPath f) fileData in
  let! _ := execM E (args f) in
  let! data := readFile E outputPath in
  let! url := newObjectURL in
  modify (withUI (setVideoUrl (Some url))).

Definition convertCleanup (E : Env) (f : File) : M unit :=
  tryIgnore (let! _ := deleteFile E (inputPath f) in deleteFile E outputPath).

(** A call of [convertToVideo] that is suspended at an [await].  The
    awaits inside the first stretch touch only the virtual file system, the
    run log and the progress value, which no other handler reads or writes,
    so each stretch is one step. *)
Inductive Job :=
| AtAwait (f : File)
| AtCleanup (f : File).

Record Page := mkPage { world : World; pending : list Job }.

(** What the rendered page reacts to: the loading effect finishing, a file
    selection, a click on "Create Video", a suspended conversion resuming,
    and a click on "New Project" (rendered only with a video URL). *)
Inductive Event :=
| Loaded (ok : bool)
| Change (file : option File)
| ClickCreate
| Resume
| ClickNewProject.

Definition react (E : Env) (p : Page) (e : Event) : Page :=
  match e with
  | Loaded ok => mkPage (load ok (world p)) (pending p)
  | Change file => mkPage (onChange file (world p)) (pending p)
  | ClickCreate =>
      match clickCreateBegin (world p) with
      | (w', Some f) => mkPage w' (pending p ++ [AtAwait f])
      | (w', None) => mkPage w' (pending p)
      end
  | Resume =>
      match pending p with
      | AtAwait f :: rest =>
          match convertMain E f (world p) with
          | (inr _, w') => mkPage w' (AtCleanup f :: rest)
          | (inl t, w') =>
              mkPage (withUI (setLoading false)
                        (withUI (setError (Some (failureMessage t))) w')) rest
          end
      | AtCleanup f :: rest =>
          mkPage (withUI (setLoading false) (snd (convertCleanup E f (world p))))
                 rest
      | [] => p
      end
  | ClickNewProject =>
      match videoUrl (ui (world p)) with
      | Some _ => mkPage (onNewProject (world p)) (pending p)
      | None => p
      end
  end.

Definition runEvents (E : Env) (es : list Event) : Page :=
  fold_left (react E) es (mkPage initial []).

(** What every page reached through events satisfies. *)
Record pageInv (p : Page) : Prop := mkPageInv {
  inv_engine : loaded (ui (world p)) = true -> ffmpegRef (world p) = true;
  inv_idle : loaded (ui (world p)) = false ->
             execLog (world p) = [] /\ pending p = [];
  inv_one : (length (pending p) <= 1)%nat;
  inv_loading : loading (ui (world p)) = true <-> pending p <> [];
  inv_fresh : forall u, u ∈ live (world p) -> (u < nextUrl (world p))%nat;
  inv_preview : forall u, previewUrl (ui (world p)) = Some u -> u ∈ live (world p);
  inv_video : forall v, videoUrl (ui (world p)) = Some v ->
              v ∈ live (world p) /\ previewUrl (ui (world p)) <> Some v;
  inv_image : is_Some (image (ui (world p))) <-> is_Some (previewUrl (ui (world p)));
  inv_await : forall f, pending p = [AtAwait f] ->
              videoUrl (ui (world p)) = None /\ is_Some (image (ui (world p)));
  inv_shown : is_Some (videoUrl (ui (world p))) -> is_Some (image (ui (world p)))
}.

(** The cells of two states agree except for the progress value. *)
Definition sameButProgress (u u' : UI) : Prop :=
  loaded u' = loaded u /\ loading u' = loading u /\ image u' = image u
  /\ previewUrl u' = previewUrl u /\ videoUrl u' = videoUrl u
  /\ error u' = error u.

(** A progress fraction as the engine's interface documents it. *)
Definition fraction (p : Q) : Prop := (0 <= p <= 1)%Q.

(** The world in which a call that got past both early returns reaches its
    first [await]. *)
Definition begun (w : World) : World :=
  revokeIfSet (videoUrl (ui w))
    (withUI (setError None) (withUI (setProgress 0) (withUI (setLoading true) w))).

(** ** The ways through the [try] block *)

(** The engine run of a conversion of [f] started in [w], once [fetchFile]
    has given [d] and [d] has been written to the input path. *)
Definition runOf (E : Env) (f : File) (d : list Byte.byte) (w : World) : ExecOutcome :=
  exec E (args f) (<[inputPath f := d]> (fs w)).

(** The world right after that run: progress delivered, the run's file
    system in place, the call logged. *)
Definition afterRun (E : Env) (f : File) (d : list Byte.byte) (w : World) : World :=
  mkWorld (deliver (emitted (runOf E f d w)) (ui w)) (live w) (nextUrl w)
          (ffmpegRef w) (fsAfter (runOf E f d w)) (execLog w ++ [args f]).

(** The four ways [convertMain] can go, with the value thrown or returned
    and the world it leaves. *)
Inductive MainOutcome (E : Env) (f : File) (w : World) :
  (Thrown + unit) * World -> Prop :=
| FetchFailed t :
    fetchFile E f = inl t ->
    MainOutcome E f w (inl t, w)
| ExecThrew d t :
    fetchFile E f = inr d ->
    result (runOf E f d w) = inl t ->
    MainOutcome E f w (inl t, afterRun E f d w)
| OutputMissing d code :
    fetchFile E f = inr d ->
    result (runOf E f d w) = inr code ->
    fsAfter (runOf E f d w) !! outputPath = None ->
    MainOutcome E f w (inl (fsError E outputPath), afterRun E f d w)
| MainDone d code dout :
    fetchFile E f = inr d ->
    result (runOf E f d w) = inr code ->
    fsAfter (runOf E f d w) !! outputPath = Some dout ->
    MainOutcome E f w
      (inr tt,
       mkWorld (setVideoUrl (Some (nextUrl w)) (ui (afterRun E f d w)))
               ({[nextUrl w]} ∪ live w) (S (nextUrl w)) (ffmpegRef w)
               (fsAfter (runOf E f d w)) (execLog w ++ [args f])).

(** The file system the inner [try] leaves: the input is deleted if it is
    there, and only then the output, if it is there. *)
Definition cleanedFs (f : File) (m : gmap string (list Byte.byte)) :
  gmap string (list Byte.byte) :=
  match m !! inputPath f with
  | Some _ =>
      match delete (inputPath f) m !! outputPath with
      | Some _ => delete outputPath (delete (inputPath f) m)
      | None => delete (inputPath f) m
      end
  | None => m
  end.

(** Two environments that differ at most in the exit codes their runs
    return. *)
Definition sameButExitCode (E1 E2 : Env) : Prop :=
  (forall f, fetchFile E1 f = fetchFile E2 f)
  /\ (forall path, fsError E1 path = fsError E2 path)
  /\ (forall a m,
        emitted (exec E1 a m) = emitted (exec E2 a m)
        /\ fsAfter (exec E1 a m) = fsAfter (exec E2 a m)
        /\ match result (exec E1 a m), result (exec E2 a m) with
           | inl t1, inl t2 => t1 = t2
           | inr _, inr _ => True
           | _, _ => False
           end).

(** The encoding engine with a non-zero exit code. *)
Definition okEnvExit1 : Env :=
  mkEnv (fun f => inr (bytes f))
        (fun a m => mkExec [(1 # 4)%Q; (1 # 1)%Q] (<[outputPath := [Byte.x00]]> m) (inr 1))
        (fun _ => OtherValue "ErrnoError: FS error").

(** * Properties *)

(** ** Strings: splitting at dots *)

Lemma split_nonempty sep s : JS.split sep s <> [].
Proof.
  destruct s as [|c r]; simpl; [discriminate|].
  destruct (Ascii.eqb c sep); [discriminate|].
  destruct (JS.split sep r); discriminate.
Qed.

Lemma split_no_dot s : hasDot s = false -> JS.split dot s = [s].
Proof.
  induction s as [|c r IH]; simpl; [reflexivity|].
  intros H. apply orb_false_iff in H as [Hc Hr].
  rewrite Hc, (IH Hr). reflexivity.
Qed.

Lemma split_app_dot b e :
  JS.split dot (b +:+ String dot e) = JS.split dot b ++ JS.split dot e.
Proof.
  induction b as [|c b IH]; simpl.
  - reflexivity.
  - destruct (Ascii.eqb c dot).
    + now rewrite IH.
    + rewrite IH. destruct (JS.split dot b) as [|h t] eqn:Hb.
      * now apply split_nonempty in Hb.
      * reflexivity.
Qed.

Lemma pop_app l1 l2 : l2 <> [] -> JS.pop (l1 ++ l2) = JS.pop l2.
Proof.
  intros H. induction l1 as [|x l1 IH]; [reflexivity|].
  simpl. destruct (l1 ++ l2) eqn:Happ.
  - apply app_eq_nil in Happ as [_ ->]. contradiction.
  - exact IH.
Qed.

Lemma pop_split_ext b e :
  hasDot e = false -> JS.pop (JS.split dot (b +:+ String dot e)) = Some e.
Proof.
  intros H. rewrite split_app_dot, pop_app by apply split_nonempty.
  now rewrite split_no_dot.
Qed.

Lemma toLowerCase_empty s : JS.toLowerCase s = EmptyString <-> s = EmptyString.
Proof. destruct s; simpl; split; congruence. Qed.

Lemma or_else_lower e :
  JS.or_else (JS.toLowerCase e) "png" =
  match e with EmptyString => "png" | _ => JS.toLowerCase e end.
Proof. destruct e; reflexivity. Qed.

(** The extension of a name with a dot is the lowercased text after its
    last dot, and "png" when nothing follows that dot. *)
Lemma inputExt_dotted b e d :
  hasDot e = false ->
  inputExt (mkFile (b +:+ String dot e) d) =
  match e with EmptyString => "png" | _ => JS.toLowerCase e end.
Proof.
  intros H. unfold inputExt. simpl name.
  rewrite (pop_split_ext b e H). simpl. apply or_else_lower.
Qed.

(** A name without any dot is taken whole as its own extension. *)
Lemma inputExt_no_dot s d :
  hasDot s = false ->
  inputExt (mkFile s d) =
  match s with EmptyString => "png" | _ => JS.toLowerCase s end.
Proof.
  intros H. unfold inputExt. simpl name.
  rewrite (split_no_dot s H). simpl. apply or_else_lower.
Qed.

(** ** Strings: the last dot and the text before it *)

Lemma lastIndexOf_from_no_dot s i acc :
  hasDot s = false -> JS.lastIndexOf_from dot s i acc = acc.
Proof.
  revert i acc. induction s as [|c r IH]; simpl; intros i acc H; [reflexivity|].
  apply orb_false_iff in H as [Hc Hr]. rewrite Hc. now apply IH.
Qed.

Lemma lastIndexOf_from_app b e i acc :
  hasDot e = false ->
  JS.lastIndexOf_from dot (b +:+ String dot e) i acc =
  i + Z.of_nat (String.length b).
Proof.
  intros H. revert i acc. induction b as [|c b IH]; intros i acc.
  - simpl. rewrite lastIndexOf_from_no_dot by assumption. lia.
  - simpl. rewrite IH. lia.
Qed.

Lemma lastIndexOf_dotted b e :
  hasDot e = false ->
  JS.lastIndexOf dot (b +:+ String dot e) = Z.of_nat (String.length b).
Proof. intros H. unfold JS.lastIndexOf. now rewrite lastIndexOf_from_app. Qed.

Lemma lastIndexOf_no_dot s : hasDot s = false -> JS.lastIndexOf dot s = -1.
Proof. intros H. unfold JS.lastIndexOf. now apply lastIndexOf_from_no_dot. Qed.

Lemma substring_prefix b r :
  String.substring 0 (String.length b) (b +:+ r) = b.
Proof.
  induction b as [|c b IH]; simpl.
  - destruct r; reflexivity.
  - now rewrite IH.
Qed.

Lemma length_app_str a b :
  String.length (a +:+ b) = (String.length a + String.length b)%nat.
Proof. induction a as [|c a IH]; simpl; [reflexivity|now rewrite IH]. Qed.

Lemma js_substring_prefix b r :
  JS.substring (b +:+ r) 0 (Z.of_nat (String.length b)) = b.
Proof.
  unfold JS.substring. rewrite length_app_str.
  replace (Z.max 0 (Z.min 0 _)) with 0 by lia.
  replace (Z.max 0 (Z.min (Z.of_nat (String.length b)) _))
    with (Z.of_nat (String.length b)) by lia.
  replace (Z.min 0 (Z.of_nat (String.length b))) with 0 by lia.
  replace (Z.max 0 (Z.of_nat (String.length b)))
    with (Z.of_nat (String.length b)) by lia.
  rewrite Z.sub_0_r, Nat2Z.id. apply substring_prefix.
Qed.

Lemma js_substring_empty s b : b <= 0 -> JS.substring s 0 b = EmptyString.
Proof.
  intros H. unfold JS.substring.
  replace (Z.max 0 (Z.min 0 _)) with 0 by lia.
  replace (Z.max 0 (Z.min b _)) with 0 by lia.
  simpl. destruct s; reflexivity.
Qed.

(** ** The argument list *)

Lemma truncHalfTimes2_even x :
  Z.even (truncHalfTimes2 x) = true /\ x - 2 < truncHalfTimes2 x <= x.
Proof.
  unfold truncHalfTimes2. split.
  - rewrite Z.even_mul. simpl. apply orb_true_r.
  - pose proof (Z.div_mod x 2 ltac:(lia)) as Hd.
    pose proof (Z.mod_pos_bound x 2 ltac:(lia)) as Hm. lia.
Qed.

(** The shape of the argument list in terms of [inputExt]: the overwrite
    flag "-y"; then the decode hint "-f" "image2", omitted exactly when
    [inputExt] is "gif"; then the fixed encoding tail. *)
Lemma args_shape (f : File) :
  exists hint : list string,
    args f =
      "-y" :: hint ++
      ["-loop"; "1"; "-i"; inputPath f; "-t"; "1"; "-c:v"; "libx264";
       "-preset"; "medium"; "-crf"; "18"; "-pix_fmt"; "yuv420p";
       "-vf"; "scale='trunc(iw/2)*2:trunc(ih/2)*2'"; outputPath]
    /\ (hint = [] <-> inputExt f = "gif")
    /\ (hint = ["-f"; "image2"] <-> inputExt f <> "gif")
    /\ (In "-f" (args f) <-> inputExt f <> "gif")
    /\ (In "image2" (args f) <-> inputExt f <> "gif").
Proof.
  unfold args, isGif.
  destruct (String.eqb_spec (inputExt f) "gif") as [Hg | Hg].
  - exists []. split; [reflexivity|].
    unfold inputPath, outputPath. rewrite Hg. simpl.
    repeat split; try congruence; intros H; exfalso;
      repeat (destruct H as [H | H]; [discriminate H|]); exact H.
  - exists ["-f"; "image2"]. split; [reflexivity|].
    repeat split; try congruence; try discriminate; intros _; simpl; tauto.
Qed.

(** The extension test is case-insensitive on the text after the last dot. *)
Lemma isGif_dotted b e d :
  hasDot e = false ->
  isGif (mkFile (b +:+ String dot e) d) = String.eqb (JS.toLowerCase e) "gif".
Proof.
  intros H. unfold isGif. rewrite inputExt_dotted by assumption.
  destruct e; reflexivity.
Qed.

(** C4 at a name without extension: the file name "GIF" has no dot, so it
    has no extension, yet the whole name is taken for one and the decode
    hint "-f" "image2" is left out of the argument list; a name without
    dot that does not read "gif" keeps the hint. *)
Theorem hint_omitted_without_extension (d : list Byte.byte) :
  hasDot "GIF" = false
  /\ inputExt (mkFile "GIF" d) = "gif"
  /\ args (mkFile "GIF" d) =
     ["-y"; "-loop"; "1"; "-i"; "input.gif"; "-t"; "1"; "-c:v"; "libx264";
      "-preset"; "medium"; "-crf"; "18"; "-pix_fmt"; "yuv420p";
      "-vf"; "scale='trunc(iw/2)*2:trunc(ih/2)*2'"; "output.mp4"]
  /\ ~ In "-f" (args (mkFile "GIF" d))
  /\ args (mkFile "photo" d) =
     ["-y"; "-f"; "image2"; "-loop"; "1"; "-i"; "input.photo"; "-t"; "1";
      "-c:v"; "libx264"; "-preset"; "medium"; "-crf"; "18";
      "-pix_fmt"; "yuv420p";
      "-vf"; "scale='trunc(iw/2)*2:trunc(ih/2)*2'"; "output.mp4"].
Proof.
  repeat split. intros H. simpl in H.
  repeat (destruct H as [H | H]; [discriminate H|]). exact H.
Qed.

(** X22: for a file name with a dot the argument list is "-y", then the
    decode hint "-f" "image2" unless the text after the last dot reads
    "gif" in any letter case, then the fixed encoding tail with the input
    path built from that text in lower case ("png" when it is empty) and
    the output path last. *)
Theorem args_dotted (b e : string) (d : list Byte.byte) :
  hasDot e = false ->
  args (mkFile (b +:+ "." +:+ e) d) =
    "-y" ::
    (if String.eqb (JS.toLowerCase e) "gif" then [] else ["-f"; "image2"]) ++
    ["-loop"; "1";
     "-i"; "input." +:+ match e with EmptyString => "png" | _ => JS.toLowerCase e end;
     "-t"; "1"; "-c:v"; "libx264"; "-preset"; "medium"; "-crf"; "18";
     "-pix_fmt"; "yuv420p"; "-vf"; "scale='trunc(iw/2)*2:trunc(ih/2)*2'";
     "output.mp4"]
  /\ (In "-f" (args (mkFile (b +:+ "." +:+ e) d)) <-> JS.toLowerCase e <> "gif")
  /\ args (mkFile "anim.GiF" d) =
     ["-y"; "-loop"; "1"; "-i"; "input.gif"; "-t"; "1"; "-c:v"; "libx264";
      "-preset"; "medium"; "-crf"; "18"; "-pix_fmt"; "yuv420p";
      "-vf"; "scale='trunc(iw/2)*2:trunc(ih/2)*2'"; "output.mp4"].
Proof.
  intros H. change (b +:+ "." +:+ e) with (b +:+ String dot e).
  assert (Hext : inputExt (mkFile (b +:+ String dot e) d) =
                 match e with EmptyString => "png" | _ => JS.toLowerCase e end)
    by now apply inputExt_dotted.
  assert (Hgif : isGif (mkFile (b +:+ String dot e) d) =
                 String.eqb (JS.toLowerCase e) "gif")
    by now apply isGif_dotted.
  assert (Hargs : args (mkFile (b +:+ String dot e) d) =
    "-y" ::
    (if String.eqb (JS.toLowerCase e) "gif" then [] else ["-f"; "image2"]) ++
    ["-loop"; "1";
     "-i"; "input." +:+ match e with EmptyString => "png" | _ => JS.toLowerCase e end;
     "-t"; "1"; "-c:v"; "libx264"; "-preset"; "medium"; "-crf"; "18";
     "-pix_fmt"; "yuv420p"; "-vf"; "scale='trunc(iw/2)*2:trunc(ih/2)*2'";
     "output.mp4"]).
  { unfold args, inputPath, outputPath. now rewrite Hgif, Hext. }
  split; [exact Hargs|]. split; [|reflexivity].
  rewrite Hargs.
  destruct (String.eqb_spec (JS.toLowerCase e) "gif") as [Hg | Hg].
  - split; [|congruence].
    intros Hin. exfalso. destruct e as [|c e]; [discriminate Hg|].
    rewrite Hg in Hin. simpl in Hin.
    repeat (destruct Hin as [Hin | Hin]; [discriminate Hin|]). exact Hin.
  - split; [intros _; exact Hg|]. intros _. simpl. tauto.
Qed.

Lemma args_dotted_witness :
  hasDot "JPEG" = false
  /\ In "-f" (args (mkFile ("scan.v2" +:+ "." +:+ "JPEG") [])).
Proof.
  split; [reflexivity|].
  apply (proj1 (proj2 (args_dotted "scan.v2" "JPEG" [] eq_refl))).
  discriminate.
Defined.

(** ** The derived file names *)

Example ext_jpg : inputExt (mkFile "photo.JPG" []) = "jpg".
Proof. reflexivity. Qed.
Example ext_nodot : inputExt (mkFile "photo" []) = "photo".
Proof. reflexivity. Qed.
Example ext_trailing : inputExt (mkFile "photo." []) = "png".
Proof. reflexivity. Qed.
Example dl1 : downloadName (Some (mkFile "photo.jpg" [])) = "photo.mp4".
Proof. reflexivity. Qed.
Example dl2 : downloadName (Some (mkFile ".png" [])) = ".png.mp4".
Proof. reflexivity. Qed.
Example dl3 : downloadName (Some (mkFile "photo" [])) = "photo.mp4".
Proof. reflexivity. Qed.
Example pr1 : onProgress (1 # 2) = 50.
Proof. reflexivity. Qed.
Example args_gif :
  args (mkFile "anim.GIF" []) =
  ["-y"; "-loop"; "1"; "-i"; "input.gif"; "-t"; "1"; "-c:v"; "libx264";
   "-preset"; "medium"; "-crf"; "18"; "-pix_fmt"; "yuv420p";
   "-vf"; "scale='trunc(iw/2)*2:trunc(ih/2)*2'"; "output.mp4"].
Proof. reflexivity. Qed.

(** C7, as stated, fails: a name without extension is not given "png" but
    is used whole, and an extension no image format bears is used as is. *)
Lemma inputPath_not_defaulted :
  hasDot "photo" = false
  /\ inputPath (mkFile "photo" []) = "input.photo"
  /\ inputPath (mkFile "photo" []) <> "input.png"
  /\ inputPath (mkFile "scan.q7#" []) = "input.q7#".
Proof. repeat split; try reflexivity. discriminate. Qed.

(** C7, amended: for a name with a dot, the input file name is "input."
    followed by the lowercased text after the last dot, whatever it is, and
    "input.png" when nothing follows that dot; the output file name is
    always "output.mp4". *)
Theorem inputPath_dotted (b e : string) (d : list Byte.byte) :
  hasDot e = false ->
  inputExt (mkFile (b +:+ "." +:+ e) d) =
    match e with EmptyString => "png" | _ => JS.toLowerCase e end
  /\ inputPath (mkFile (b +:+ "." +:+ e) d) =
    "input." +:+ match e with EmptyString => "png" | _ => JS.toLowerCase e end
  /\ outputPath = "output.mp4".
Proof.
  intros H. change (b +:+ "." +:+ e) with (b +:+ String dot e).
  unfold inputPath. rewrite (inputExt_dotted b e d H). repeat split.
Qed.

Lemma inputPath_dotted_witness :
  hasDot "JPG" = false
  /\ inputPath (mkFile ("photo" +:+ "." +:+ "JPG") []) = "input.jpg".
Proof.
  split; [reflexivity|].
  exact (proj1 (proj2 (inputPath_dotted "photo" "JPG" [] eq_refl))).
Defined.

(** C9, as stated, fails: when the last dot is the first character the
    text before it is empty, and the whole name is kept. *)
Lemma downloadName_leading_dot :
  JS.substring ".png" 0 (JS.lastIndexOf dot ".png") = EmptyString
  /\ downloadName (Some (mkFile ".png" [])) = ".png.mp4"
  /\ downloadName (Some (mkFile ".png" [])) <> EmptyString +:+ ".mp4".
Proof. repeat split; try reflexivity. discriminate. Qed.

(** C9, amended: the download name is the text before the last dot of the
    source name followed by ".mp4" when that text is not empty; a name whose
    only text before its last dot is empty, and a name without a dot, is
    kept whole and followed by ".mp4"; "photo.jpg" gives "photo.mp4". *)
Theorem downloadName_spec (b e : string) (d : list Byte.byte) :
  hasDot e = false ->
  downloadName (Some (mkFile (b +:+ "." +:+ e) d)) =
    match b with EmptyString => "." +:+ e | _ => b end +:+ ".mp4"
  /\ downloadName (Some (mkFile e d)) = e +:+ ".mp4"
  /\ downloadName (Some (mkFile "photo.jpg" d)) = "photo.mp4".
Proof.
  intros H. change (b +:+ "." +:+ e) with (b +:+ String dot e).
  unfold downloadName. simpl name. repeat split.
  - rewrite (lastIndexOf_dotted b e H), js_substring_prefix.
    destruct b; reflexivity.
  - rewrite (lastIndexOf_no_dot e H), js_substring_empty by lia. reflexivity.
Qed.

Lemma downloadName_spec_witness :
  hasDot "jpeg" = false
  /\ downloadName (Some (mkFile ("holiday.2024" +:+ "." +:+ "jpeg") [])) =
     "holiday.2024.mp4".
Proof.
  split; [reflexivity|].
  exact (proj1 (downloadName_spec "holiday.2024" "jpeg" [] eq_refl)).
Defined.

(** ** Binary64 rounding *)

Section Binary64.

Import JS.
Local Open Scope Q_scope.

Lemma pow2_pos k : 0 < pow2 k.
Proof. apply Qpower_0_lt. reflexivity. Qed.

Lemma pow2_add a b : pow2 (a + b) == pow2 a * pow2 b.
Proof. apply Qpower_plus. discriminate. Qed.

Lemma pow2_cancel k : pow2 k * pow2 (- k) == 1.
Proof. rewrite <- pow2_add, Z.add_opp_diag_r. reflexivity. Qed.

Lemma pow2_int k : (0 <= k)%Z -> pow2 k == inject_Z (2 ^ k).
Proof. intros H. unfold pow2. now rewrite (Zpower_Qpower 2 k H). Qed.

Lemma pow2_le a b : (a <= b)%Z -> pow2 a <= pow2 b.
Proof. intros H. apply Qpower_le_compat_l; [exact H|discriminate]. Qed.

Lemma pow2_lt_inv a b : pow2 a < pow2 b -> (a < b)%Z.
Proof. intros H. apply (Qpower_lt_compat_l_inv 2); [exact H|reflexivity]. Qed.

Lemma pow2_multiple e k : (k <= e)%Z -> pow2 e == inject_Z (2 ^ (e - k)) * pow2 k.
Proof.
  intros H. rewrite <- pow2_int by lia. rewrite <- pow2_add.
  now replace (e - k + k)%Z with e by lia.
Qed.

Lemma roundHalfEven_bounds y :
  (Qfloor y <= roundHalfEven y <= Qfloor y + 1)%Z.
Proof.
  unfold roundHalfEven. destruct (y - inject_Z (Qfloor y) ?= 1 # 2);
    [destruct (Z.even (Qfloor y))| |]; lia.
Qed.

Lemma roundHalfEven_int n : roundHalfEven (inject_Z n) = n.
Proof.
  unfold roundHalfEven. rewrite Qfloor_Z.
  destruct (Qcompare_spec (inject_Z n - inject_Z n) (1 # 2)) as [H | H | H].
  - exfalso. set (z := inject_Z n) in *. clearbody z. lra.
  - reflexivity.
  - exfalso. set (z := inject_Z n) in *. clearbody z. lra.
Qed.

Lemma roundHalfEven_mono y z : y <= z -> (roundHalfEven y <= roundHalfEven z)%Z.
Proof.
  intros Hyz. pose proof (Qfloor_resp_le y z Hyz) as Hfg.
  destruct (Z.eq_dec (Qfloor y) (Qfloor z)) as [He | Hne].
  - unfold roundHalfEven. rewrite <- He.
    set (f := Qfloor y). set (qf := inject_Z f).
    destruct (Qcompare_spec (y - qf) (1 # 2)) as [Hy | Hy | Hy];
      destruct (Qcompare_spec (z - qf) (1 # 2)) as [Hz | Hz | Hz];
      try (destruct (Z.even f)); try lia; exfalso; clearbody qf; lra.
  - pose proof (roundHalfEven_bounds y). pose proof (roundHalfEven_bounds z). lia.
Qed.

Lemma roundTo_le k x t :
  x <= inject_Z t * pow2 k -> roundTo k x <= inject_Z t * pow2 k.
Proof.
  intros H. unfold roundTo.
  apply Qmult_le_compat_r; [|apply Qlt_le_weak, pow2_pos].
  rewrite <- Zle_Qle. rewrite <- (roundHalfEven_int t).
  apply roundHalfEven_mono.
  apply (Qmult_le_compat_r _ _ (pow2 (- k))) in H;
    [|apply Qlt_le_weak, pow2_pos].
  rewrite <- Qmult_assoc, pow2_cancel, Qmult_1_r in H. exact H.
Qed.

Lemma roundTo_ge k x t :
  inject_Z t * pow2 k <= x -> inject_Z t * pow2 k <= roundTo k x.
Proof.
  intros H. unfold roundTo.
  apply Qmult_le_compat_r; [|apply Qlt_le_weak, pow2_pos].
  rewrite <- Zle_Qle. rewrite <- (roundHalfEven_int t).
  apply roundHalfEven_mono.
  apply (Qmult_le_compat_r _ _ (pow2 (- k))) in H;
    [|apply Qlt_le_weak, pow2_pos].
  rewrite <- Qmult_assoc, pow2_cancel, Qmult_1_r in H. exact H.
Qed.

Lemma roundTo_mono k x y : x <= y -> roundTo k x <= roundTo k y.
Proof.
  intros H. unfold roundTo.
  apply Qmult_le_compat_r; [|apply Qlt_le_weak, pow2_pos].
  rewrite <- Zle_Qle. apply roundHalfEven_mono.
  apply Qmult_le_compat_r; [exact H|apply Qlt_le_weak, pow2_pos].
Qed.

Lemma binade_upper x : Qabs x < pow2 (binade x + 1).
Proof.
  unfold binade. set (a := Qabs x * pow2 1100).
  assert (Ha : 0 <= a).
  { apply Qmult_le_0_compat; [apply Qabs_nonneg|apply Qlt_le_weak, pow2_pos]. }
  assert (Hn : (0 <= Qfloor a)%Z).
  { change 0%Z with (Qfloor 0). now apply Qfloor_resp_le. }
  assert (Hlog : (Qfloor a + 1 <= 2 ^ (Z.log2 (Qfloor a) + 1))%Z).
  { destruct (Z.eq_dec (Qfloor a) 0%Z) as [-> | Hne]; [simpl; lia|].
    pose proof (Z.log2_spec (Qfloor a) ltac:(lia)) as [_ Hs].
    unfold Z.succ in Hs. lia. }
  assert (Hlt : a < pow2 (Z.log2 (Qfloor a) + 1)).
  { rewrite pow2_int by (pose proof (Z.log2_nonneg (Qfloor a)); lia).
    eapply Qlt_le_trans; [apply Qlt_floor|]. now rewrite <- Zle_Qle. }
  replace (Z.log2 (Qfloor a) - 1100 + 1)%Z
    with ((Z.log2 (Qfloor a) + 1) + - 1100)%Z by lia.
  rewrite pow2_add.
  assert (Hx : Qabs x == a * pow2 (- 1100)).
  { unfold a. rewrite <- Qmult_assoc, pow2_cancel, Qmult_1_r. reflexivity. }
  rewrite Hx. apply Qmult_lt_compat_r; [apply pow2_pos|exact Hlt].
Qed.

Lemma binade_lower x : (-1100 < binade x)%Z -> pow2 (binade x) <= Qabs x.
Proof.
  unfold binade. set (a := Qabs x * pow2 1100). intros Hb.
  assert (Hpos : (0 < Qfloor a)%Z).
  { destruct (Z.lt_trichotomy (Qfloor a) 0%Z) as [H | [H | H]]; [| |exact H].
    - rewrite (Z.log2_nonpos (Qfloor a)) in Hb by lia. lia.
    - rewrite H in Hb. simpl in Hb. lia. }
  pose proof (Z.log2_spec (Qfloor a) Hpos) as [Hs _].
  assert (Hle : pow2 (Z.log2 (Qfloor a)) <= a).
  { rewrite pow2_int by apply Z.log2_nonneg.
    eapply Qle_trans; [|apply Qfloor_le]. now rewrite <- Zle_Qle. }
  replace (Z.log2 (Qfloor a) - 1100)%Z with (Z.log2 (Qfloor a) + - 1100)%Z by lia.
  rewrite pow2_add.
  assert (Hx : Qabs x == a * pow2 (- 1100)).
  { unfold a. rewrite <- Qmult_assoc, pow2_cancel, Qmult_1_r. reflexivity. }
  rewrite Hx. apply Qmult_le_compat_r; [exact Hle|apply Qlt_le_weak, pow2_pos].
Qed.

Lemma quantum_normal x :
  (-1074 < quantum x)%Z ->
  quantum x = (binade x - 52)%Z /\ pow2 (binade x) <= Qabs x.
Proof.
  unfold quantum. intros H. split; [lia|]. apply binade_lower. lia.
Qed.

Lemma quantum_ge x : (binade x - 52 <= quantum x)%Z /\ (-1074 <= quantum x)%Z.
Proof. unfold quantum. lia. Qed.

(** Rounding to the nearest double keeps the order. *)
Lemma toDouble_mono x y : x <= y -> toDouble x <= toDouble y.
Proof.
  intros Hxy. unfold toDouble.
  destruct (Z.lt_trichotomy (quantum x) (quantum y)) as [Hk | [Hk | Hk]].
  - (* the quantum of x is finer *)
    destruct (quantum_normal y ltac:(pose proof (quantum_ge x); lia)) as [Hy Hly].
    pose proof (quantum_ge x) as [Hbx _].
    pose proof (binade_upper x) as Hux.
    destruct (Qlt_le_dec 0 y) as [Hpos | Hneg].
    + rewrite (Qabs_pos y) in Hly by now apply Qlt_le_weak.
      assert (Hx : x <= pow2 (binade y)).
      { eapply Qle_trans; [apply Qle_Qabs|]. apply Qlt_le_weak.
        eapply Qlt_le_trans; [exact Hux|]. apply pow2_le. lia. }
      apply Qle_trans with (pow2 (binade y)).
      * rewrite (pow2_multiple (binade y) (quantum x)) in * by lia.
        now apply roundTo_le.
      * rewrite (pow2_multiple (binade y) (quantum y)) in * by lia.
        now apply roundTo_ge.
    + exfalso. rewrite (Qabs_neg y Hneg) in Hly.
      assert (Hax : Qabs x == - x) by (apply Qabs_neg; now apply Qle_trans with y).
      rewrite Hax in Hux.
      assert (Hlt : pow2 (binade y) < pow2 (binade x + 1)) by lra.
      apply pow2_lt_inv in Hlt. lia.
  - rewrite Hk. now apply roundTo_mono.
  - (* the quantum of y is finer *)
    destruct (quantum_normal x ltac:(pose proof (quantum_ge y); lia)) as [Hx Hlx].
    pose proof (quantum_ge y) as [Hby _].
    pose proof (binade_upper y) as Huy.
    destruct (Qlt_le_dec x 0) as [Hneg | Hpos].
    + rewrite (Qabs_neg x) in Hlx by now apply Qlt_le_weak.
      assert (Hy : - pow2 (binade x) <= y).
      { assert (Hay : - y <= Qabs y) by (rewrite <- Qabs_opp; apply Qle_Qabs).
        assert (Hp : pow2 (binade y + 1) <= pow2 (binade x)) by (apply pow2_le; lia).
        lra. }
      assert (Hm : forall k, (k <= binade x)%Z ->
                 - pow2 (binade x) == inject_Z (- 2 ^ (binade x - k)) * pow2 k).
      { intros k Hk'. rewrite (pow2_multiple (binade x) k Hk') at 1.
        rewrite inject_Z_opp. ring. }
      apply Qle_trans with (- pow2 (binade x)).
      * rewrite (Hm (quantum x)) by lia. apply roundTo_le.
        rewrite <- (Hm (quantum x)) by lia. lra.
      * rewrite (Hm (quantum y)) by lia. apply roundTo_ge.
        rewrite <- (Hm (quantum y)) by lia. exact Hy.
    + exfalso. rewrite (Qabs_pos x Hpos) in Hlx.
      assert (Hay : Qabs y == y) by (apply Qabs_pos; now apply Qle_trans with x).
      rewrite Hay in Huy.
      assert (Hlt : pow2 (binade x) < pow2 (binade y + 1)) by lra.
      apply pow2_lt_inv in Hlt. lia.
Qed.

Lemma times_mono_l x y c : 0 <= c -> x <= y -> times x c <= times y c.
Proof.
  intros Hc H. unfold times. apply toDouble_mono.
  now apply Qmult_le_compat_r.
Qed.

Lemma toDouble_range x : 0 <= x <= 100 -> 0 <= toDouble x <= 100.
Proof.
  intros [H0 H1]. split.
  - apply Qle_trans with (toDouble 0); [vm_compute; discriminate|].
    now apply toDouble_mono.
  - apply Qle_trans with (toDouble 100); [now apply toDouble_mono|].
    vm_compute. discriminate.
Qed.

End Binary64.

Section Binary64Check.

Import JS PrimFloat.

(** On these products the model gives what the kernel's binary64
    multiplication gives: the doubles nearest to 0.015, -0.005, 0.285 and
    0.37 times 100, a product that rounds into the subnormal range, and one
    of two operands that are not exactly representable in decimal. *)
Example times_agrees_with_binary64 :
  timesAgrees 0x1.eb851eb851eb8p-7%float 100%float = true
  /\ timesAgrees (-0x1.47ae147ae147bp-8)%float 100%float = true
  /\ timesAgrees 0x1.23d70a3d70a3dp-2%float 100%float = true
  /\ timesAgrees 0x1.7ae147ae147aep-2%float 100%float = true
  /\ timesAgrees 0x1.01297d23ab683p-995%float 0x1.79ca10c924223p-67%float = true
  /\ timesAgrees 0x1.999999999999ap-4%float 0x1.999999999999ap-3%float = true.
Proof. repeat split; vm_compute; reflexivity. Qed.

End Binary64Check.

(** ** The progress handler *)


Lemma Math_round_range (x : Q) :
  (0 <= x <= 100)%Q -> 0 <= JS.Math_round x <= 100.
Proof.
  intros [H0 H1]. unfold JS.Math_round. split.
  - change 0 with (Qfloor (1 # 2)). apply Qfloor_resp_le. lra.
  - change 100 with (Qfloor (201 # 2)). apply Qfloor_resp_le. lra.
Qed.

Lemma times100_range (p : Q) :
  (0 <= p <= 1)%Q -> (0 <= JS.times p 100 <= 100)%Q.
Proof.
  intros Hp. unfold JS.times. apply toDouble_range. lra.
Qed.



(** The handler clamps from above only. *)
Example onProgress_above : onProgress (3 # 2) = 100.
Proof. reflexivity. Qed.
Example onProgress_below : onProgress (-1 # 2) = -50.
Proof. reflexivity. Qed.

(** The doubles nearest to 0.015 and to -0.005: their products with 100
    round to 1.5 and to -0.5, which [Math.round] takes to 2 and to 0. *)
Example onProgress_double_0_015 :
  onProgress (8646911284551352 # 576460752303423488) = 2.
Proof. vm_compute. reflexivity. Qed.
Example onProgress_double_minus_0_005 :
  onProgress (-5764607523034235 # 1152921504606846976) = 0.
Proof. vm_compute. reflexivity. Qed.

(** ** Progress delivery *)

Lemma last_cons_head {A} (x d : A) (l : list A) :
  List.last (x :: l) d = List.last l x.
Proof.
  revert x d. induction l as [|y l IH]; intros x d; [reflexivity|].
  change (List.last (x :: y :: l) d) with (List.last (y :: l) d).
  now rewrite (IH y d), (IH y x).
Qed.

(** After the events of a run the progress cell holds the last forwarded
    percentage, or its previous value when nothing was emitted. *)
Lemma deliver_progress ps u :
  progress (deliver ps u) = List.last (map onProgress ps) (progress u).
Proof.
  revert u. induction ps as [|p ps IH]; intros u; [reflexivity|].
  unfold deliver in *. cbn [fold_left map]. rewrite IH, last_cons_head.
  reflexivity.
Qed.

Lemma deliver_frame ps u :
  loaded (deliver ps u) = loaded u
  /\ loading (deliver ps u) = loading u
  /\ image (deliver ps u) = image u
  /\ previewUrl (deliver ps u) = previewUrl u
  /\ videoUrl (deliver ps u) = videoUrl u
  /\ error (deliver ps u) = error u.
Proof.
  revert u. induction ps as [|p ps IH]; intros u; [repeat split|].
  unfold deliver in *. cbn [fold_left].
  destruct (IH (setProgress (onProgress p) u)) as (H1 & H2 & H3 & H4 & H5 & H6).
  rewrite H1, H2, H3, H4, H5, H6. repeat split.
Qed.

(** ** The early returns of [convertToVideo] *)

(** C5: called without a source image or before the engine is loaded,
    [convertToVideo] returns at its first line: nothing is started, no state
    changes and the engine is not run. *)
Theorem convertToVideo_not_ready (E : Env) (w : World) :
  image (ui w) = None \/ loaded (ui w) = false ->
  convertBegin w = (w, None)
  /\ convertToVideo E w = w
  /\ execLog (convertToVideo E w) = execLog w
  /\ error (ui (convertToVideo E w)) = error (ui w).
Proof.
  intros H.
  assert (Hb : convertBegin w = (w, None)).
  { unfold convertBegin. destruct H as [-> | ->]; [reflexivity|].
    destruct (image (ui w)); reflexivity. }
  unfold convertToVideo. rewrite Hb. repeat split.
Qed.

Lemma convertToVideo_not_ready_witness :
  (image (ui initial) = None \/ loaded (ui initial) = false)
  /\ convertToVideo okEnv initial = initial.
Proof.
  assert (H : image (ui initial) = None \/ loaded (ui initial) = false)
    by (left; reflexivity).
  split; [exact H|].
  exact (proj1 (proj2 (convertToVideo_not_ready okEnv initial H))).
Defined.

(** C3, as stated, fails: with a first call at its first [await], so that
    [loading] is true, a second call is accepted and runs the engine; once
    the first call resumes the engine has been run twice. *)
Lemma second_call_not_rejected :
  loading (ui inFlight) = true
  /\ snd (convertBegin inFlight) = Some photo
  /\ execLog (convertToVideo okEnv inFlight) = [args photo]
  /\ execLog (convertRest okEnv photo (convertToVideo okEnv inFlight)) =
     [args photo; args photo].
Proof. repeat split; vm_compute; reflexivity. Qed.

(** C3, amended: while [loading] is true the "Create Video" button is
    disabled, so a click on it does not reach [convertToVideo]: nothing is
    started, no state changes and the engine is not run. *)
Theorem clickCreate_while_loading (E : Env) (w : World) :
  loading (ui w) = true ->
  createDisabled (ui w) = true
  /\ clickCreateBegin w = (w, None)
  /\ clickCreate E w = w
  /\ execLog (clickCreate E w) = execLog w.
Proof.
  intros H.
  assert (Hd : createDisabled (ui w) = true).
  { unfold createDisabled. rewrite H. apply orb_true_r. }
  assert (Hb : clickCreateBegin w = (w, None)).
  { unfold clickCreateBegin. rewrite Hd. destruct (videoUrl (ui w)); reflexivity. }
  unfold clickCreate. rewrite Hb. repeat split. exact Hd.
Qed.

Lemma clickCreate_while_loading_witness :
  loading (ui inFlight) = true /\ clickCreate okEnv inFlight = inFlight.
Proof.
  assert (H : loading (ui inFlight) = true) by reflexivity.
  split; [exact H|].
  exact (proj1 (proj2 (proj2 (clickCreate_while_loading okEnv inFlight H)))).
Defined.

(** A click that is let through is exactly a call of [convertToVideo]. *)
Lemma clickCreate_enabled (E : Env) (w : World) :
  videoUrl (ui w) = None -> createDisabled (ui w) = false ->
  clickCreate E w = convertToVideo E w.
Proof.
  intros Hv Hd. unfold clickCreate, clickCreateBegin, convertToVideo.
  now rewrite Hv, Hd.
Qed.

(** ** Handlers without the engine *)

(** C10: with no file chosen, [handleUpload] changes nothing: preview URL,
    image, video URL and error message are as before, and since the preview
    URL is unchanged its effect does not run either. *)
Theorem handleUpload_empty_selection (w : World) :
  handleUpload None w = w
  /\ onChange None w = w
  /\ previewUrl (ui (handleUpload None w)) = previewUrl (ui w)
  /\ image (ui (handleUpload None w)) = image (ui w)
  /\ videoUrl (ui (handleUpload None w)) = videoUrl (ui w)
  /\ error (ui (handleUpload None w)) = error (ui w).
Proof.
  repeat split. unfold onChange, previewEffect. simpl.
  now rewrite bool_decide_eq_true_2.
Qed.

(** ** The start of a conversion *)

Lemma convertBegin_started (f : File) (w : World) :
  image (ui w) = Some f -> loaded (ui w) = true -> ffmpegRef w = true ->
  convertBegin w =
  (revokeIfSet (videoUrl (ui w))
     (withUI (setError None)
        (withUI (setProgress 0) (withUI (setLoading true) w))),
   Some f).
Proof.
  intros Hi Hl Hf. unfold convertBegin. rewrite Hi, Hl.
  cbn [withUI ffmpegRef]. now rewrite Hf.
Qed.

Lemma revokeIfSet_frame (o : option URL) (w : World) :
  ui (revokeIfSet o w) = ui w
  /\ fs (revokeIfSet o w) = fs w
  /\ execLog (revokeIfSet o w) = execLog w
  /\ nextUrl (revokeIfSet o w) = nextUrl w
  /\ ffmpegRef (revokeIfSet o w) = ffmpegRef w.
Proof. destruct o; repeat split. Qed.

Lemma revokeIfSet_live (o : option URL) (w : World) (u : URL) :
  o = Some u -> u ∉ live (revokeIfSet o w).
Proof.
  intros ->. simpl. rewrite not_elem_of_difference. right.
  now apply elem_of_singleton.
Qed.

(** ** A conversion whose engine run throws *)

Section ExecThrows.

Variable E : Env.
Variables (f : File) (d : list Byte.byte) (t : Thrown).
Hypothesis fetch_ok : fetchFile E f = inr d.

(** The world in which [convertTry] stops when [exec] throws: the input has
    been written, the run is logged, its progress events are delivered, and
    neither [readFile] nor [deleteFile] has been reached. *)
Lemma convertTry_exec_throws (w : World) :
  result (exec E (args f) (<[inputPath f := d]> (fs w))) = inl t ->
  convertTry E f w =
  (inl t,
   mkWorld
     (deliver (emitted (exec E (args f) (<[inputPath f := d]> (fs w)))) (ui w))
     (live w) (nextUrl w) (ffmpegRef w)
     (fsAfter (exec E (args f) (<[inputPath f := d]> (fs w))))
     (execLog w ++ [args f])).
Proof.
  intros Hr. unfold convertTry, bind, liftResult. rewrite fetch_ok.
  unfold ret, writeFile, modify, execM. cbn [fs ui live nextUrl ffmpegRef execLog].
  rewrite Hr. reflexivity.
Qed.

End ExecThrows.

(** C6, as stated, fails on the progress value: the run's events are
    delivered before it throws, and nothing sets the cell back to 0. *)
Lemma progress_kept_on_failure :
  result (exec failEnv (args photo) (<[inputPath photo := bytes photo]> (fs hasSource)))
    = inl (ErrorObj "boom")
  /\ progress (ui (convertToVideo failEnv hasSource)) = 50
  /\ progress (ui (convertToVideo failEnv hasSource)) <> 0.
Proof. repeat split. vm_compute. discriminate. Qed.

(** C6, amended: when the engine run throws, the error cell holds the
    thrown message between the fixed prefix and suffix, the source image is
    still there, [loading] is false again, the video URL cell is as it was
    before the call with no live URL in it, and the progress cell, set to 0
    when the call began, holds the last percentage the run forwarded (0 if
    it forwarded none). *)
Theorem convertToVideo_exec_throws
    (E : Env) (w : World) (f : File) (d : list Byte.byte) (t : Thrown) :
  image (ui w) = Some f -> loaded (ui w) = true -> ffmpegRef w = true ->
  fetchFile E f = inr d ->
  result (exec E (args f) (<[inputPath f := d]> (fs w))) = inl t ->
  error (ui (convertToVideo E w)) =
    Some ("Conversion failed (" +:+ errMsg t +:+
          "). Please try again with a different image.")
  /\ image (ui (convertToVideo E w)) = Some f
  /\ loading (ui (convertToVideo E w)) = false
  /\ videoUrl (ui (convertToVideo E w)) = videoUrl (ui w)
  /\ (forall u, videoUrl (ui (convertToVideo E w)) = Some u ->
                u ∉ live (convertToVideo E w))
  /\ progress (ui (convertToVideo E w)) =
     List.last
       (map onProgress (emitted (exec E (args f) (<[inputPath f := d]> (fs w)))))
       0.
Proof.
  intros Hi Hl Hf Hfetch Hr.
  unfold convertToVideo. rewrite (convertBegin_started f w Hi Hl Hf).
  set (w1 := revokeIfSet _ _).
  destruct (revokeIfSet_frame (videoUrl (ui w))
              (withUI (setError None)
                 (withUI (setProgress 0) (withUI (setLoading true) w))))
    as (Hui & Hfs & _).
  fold w1 in Hui, Hfs. cbn [withUI fs] in Hfs.
  unfold convertRest.
  rewrite (convertTry_exec_throws E f d t Hfetch w1) by (rewrite Hfs; exact Hr).
  rewrite Hfs, Hui.
  set (o := exec E (args f) (<[inputPath f := d]> (fs w))).
  destruct (deliver_frame (emitted o)
              (ui (withUI (setError None)
                     (withUI (setProgress 0) (withUI (setLoading true) w)))))
    as (_ & _ & Himg & _ & Hvid & _).
  cbn [withUI ui setLoading setError setProgress error image loading videoUrl
       progress live].
  cbn [withUI ui setLoading setError setProgress image videoUrl] in Himg, Hvid.
  repeat split.
  - now rewrite Himg.
  - exact Hvid.
  - intros u Hu. rewrite Hvid in Hu. subst w1.
    now apply revokeIfSet_live.
  - rewrite deliver_progress. reflexivity.
Qed.

Lemma convertToVideo_exec_throws_witness :
  (image (ui hasSource) = Some photo
   /\ loaded (ui hasSource) = true
   /\ ffmpegRef hasSource = true
   /\ fetchFile failEnv photo = inr (bytes photo)
   /\ result (exec failEnv (args photo)
                  (<[inputPath photo := bytes photo]> (fs hasSource)))
      = inl (ErrorObj "boom"))
  /\ error (ui (convertToVideo failEnv hasSource)) =
     Some "Conversion failed (boom). Please try again with a different image.".
Proof.
  split; [repeat split|].
  exact (proj1 (convertToVideo_exec_throws failEnv hasSource photo (bytes photo)
                  (ErrorObj "boom") eq_refl eq_refl eq_refl eq_refl eq_refl)).
Defined.

(** ** The virtual file system after a conversion *)

(** When the run throws, the file system is left as the run left it: no
    deletion is attempted. *)
Lemma convertToVideo_exec_throws_fs
    (E : Env) (w : World) (f : File) (d : list Byte.byte) (t : Thrown) :
  image (ui w) = Some f -> loaded (ui w) = true -> ffmpegRef w = true ->
  fetchFile E f = inr d ->
  result (exec E (args f) (<[inputPath f := d]> (fs w))) = inl t ->
  fs (convertToVideo E w) =
  fsAfter (exec E (args f) (<[inputPath f := d]> (fs w))).
Proof.
  intros Hi Hl Hf Hfetch Hr.
  unfold convertToVideo. rewrite (convertBegin_started f w Hi Hl Hf).
  set (w1 := revokeIfSet _ _).
  destruct (revokeIfSet_frame (videoUrl (ui w))
              (withUI (setError None)
                 (withUI (setProgress 0) (withUI (setLoading true) w))))
    as (_ & Hfs & _).
  fold w1 in Hfs. cbn [withUI fs] in Hfs.
  unfold convertRest.
  rewrite (convertTry_exec_throws E f d t Hfetch w1) by (rewrite Hfs; exact Hr).
  rewrite Hfs. reflexivity.
Qed.

Lemma inputPath_not_output (f : File) : inputPath f <> outputPath.
Proof. unfold inputPath, outputPath. simpl. discriminate. Qed.

(** When the run returns and leaves both files in place, both are deleted
    and the new video URL is live and stored. *)
Lemma convertToVideo_success_cleanup
    (E : Env) (w : World) (f : File) (d din dout : list Byte.byte) (code : Z) :
  image (ui w) = Some f -> loaded (ui w) = true -> ffmpegRef w = true ->
  fetchFile E f = inr d ->
  result (exec E (args f) (<[inputPath f := d]> (fs w))) = inr code ->
  fsAfter (exec E (args f) (<[inputPath f := d]> (fs w))) !! inputPath f = Some din ->
  fsAfter (exec E (args f) (<[inputPath f := d]> (fs w))) !! outputPath = Some dout ->
  fs (convertToVideo E w) !! inputPath f = None
  /\ fs (convertToVideo E w) !! outputPath = None
  /\ videoUrl (ui (convertToVideo E w)) = Some (nextUrl w)
  /\ nextUrl w ∈ live (convertToVideo E w)
  /\ error (ui (convertToVideo E w)) = None
  /\ loading (ui (convertToVideo E w)) = false.
Proof.
  intros Hi Hl Hf Hfetch Hr Hin Hout.
  unfold convertToVideo. rewrite (convertBegin_started f w Hi Hl Hf).
  set (w1 := revokeIfSet _ _).
  destruct (revokeIfSet_frame (videoUrl (ui w))
              (withUI (setError None)
                 (withUI (setProgress 0) (withUI (setLoading true) w))))
    as (Hui & Hfs & _ & Hnext & _).
  fold w1 in Hui, Hfs, Hnext. cbn [withUI fs nextUrl] in Hfs, Hnext.
  set (o := exec E (args f) (<[inputPath f := d]> (fs w))) in *.
  destruct (deliver_frame (emitted o) (ui w1)) as (_ & _ & _ & _ & _ & Herr).
  rewrite Hui in Herr at 2. cbn [withUI ui setError error] in Herr.
  unfold convertRest, convertTry, bind, liftResult. rewrite Hfetch.
  unfold ret, writeFile, modify, execM, readFile, newObjectURL, createObjectURL,
    tryIgnore, deleteFile, bind.
  cbn [fs ui live nextUrl ffmpegRef execLog withUI]. rewrite Hfs. fold o.
  rewrite Hr, Hout. cbn [fs ui live nextUrl ffmpegRef execLog withUI].
  rewrite Hin. cbn [fs ui live nextUrl ffmpegRef execLog withUI snd].
  rewrite lookup_delete_ne, Hout by apply inputPath_not_output.
  cbn [fs ui live nextUrl ffmpegRef execLog withUI setLoading setVideoUrl
       videoUrl error loading snd].
  rewrite Hnext. repeat split.
  - rewrite lookup_delete_ne by (apply not_eq_sym, inputPath_not_output).
    apply lookup_delete_eq.
  - apply lookup_delete_eq.
  - set_solver.
  - exact Herr.
Qed.

(** C1 at a failing run: the engine throws, the session shows the error,
    and the input file is still in the virtual file system afterwards. *)
Theorem cleanup_skipped_on_failure :
  error (ui (convertToVideo failEnv hasSource)) =
    Some "Conversion failed (boom). Please try again with a different image."
  /\ fs (convertToVideo failEnv hasSource) !! inputPath photo = Some (bytes photo)
  /\ fs success !! inputPath photo = None
  /\ fs success !! outputPath = None.
Proof. repeat split; vm_compute; reflexivity. Qed.

(** ** Object URLs across selection and reset *)

Lemma handleUpload_live (f : File) (w : World) :
  live (handleUpload (Some f) w) =
  {[nextUrl w]} ∪ live (revokeIfSet (previewUrl (ui w)) w)
  /\ previewUrl (ui (handleUpload (Some f) w)) = Some (nextUrl w)
  /\ videoUrl (ui (handleUpload (Some f) w)) = None.
Proof.
  unfold handleUpload, createObjectURL.
  destruct (revokeIfSet_frame (previewUrl (ui w)) w) as (_ & _ & _ & Hn & _).
  cbn [withUI ui live setError setVideoUrl setImage setPreviewUrl previewUrl
       videoUrl]. rewrite Hn. repeat split.
Qed.

(** Selecting a file revokes the preview URL it replaces. *)
Lemma handleUpload_preview_revoked (f : File) (w : World) (u : URL) :
  registryOk w -> previewUrl (ui w) = Some u ->
  u ∉ live (handleUpload (Some f) w).
Proof.
  intros [_ Hreg] Hp.
  destruct (handleUpload_live f w) as (-> & _ & _).
  assert (Hlt : (u < nextUrl w)%nat) by (apply Hreg; now left).
  rewrite Hp. simpl. rewrite not_elem_of_union. split.
  - rewrite elem_of_singleton. lia.
  - rewrite not_elem_of_difference. right. now apply elem_of_singleton.
Qed.

(** "New Project" revokes the preview URL it drops. *)
Lemma newProject_preview_revoked (w : World) (u : URL) :
  previewUrl (ui w) = Some u -> u ∉ live (newProject w).
Proof.
  intros Hp. unfold newProject. cbn [withUI live]. now apply revokeIfSet_live.
Qed.

(** Selecting a file while a video URL is live drops that URL from its cell
    without revoking it. *)
Lemma handleUpload_drops_video (f : File) (w : World) (v : URL) :
  registryOk w -> videoUrl (ui w) = Some v -> v ∈ live w ->
  previewUrl (ui w) <> Some v ->
  v ∈ live (handleUpload (Some f) w) /\ ~ referenced (handleUpload (Some f) w) v.
Proof.
  intros [Hreg _] Hv Hlive Hne.
  destruct (handleUpload_live f w) as (-> & Hp' & Hv').
  assert (Hlt : (v < nextUrl w)%nat) by now apply Hreg.
  split.
  - apply elem_of_union. right.
    destruct (previewUrl (ui w)) as [p|]; simpl; [|exact Hlive].
    apply elem_of_difference. split; [exact Hlive|].
    rewrite elem_of_singleton. congruence.
  - unfold referenced. rewrite Hp', Hv'. intros [H | H]; [|discriminate].
    injection H as H. lia.
Qed.

(** "New Project" while a video URL is live drops that URL from its cell
    without revoking it. *)
Lemma newProject_drops_video (w : World) (v : URL) :
  videoUrl (ui w) = Some v -> v ∈ live w -> previewUrl (ui w) <> Some v ->
  v ∈ live (newProject w) /\ ~ referenced (newProject w) v.
Proof.
  intros Hv Hlive Hne. unfold newProject, referenced.
  cbn [withUI ui live setVideoUrl setImage setPreviewUrl previewUrl videoUrl].
  split; [|intros [H | H]; discriminate].
  destruct (previewUrl (ui w)) as [p|]; simpl; [|exact Hlive].
  apply elem_of_difference. split; [exact Hlive|].
  rewrite elem_of_singleton. congruence.
Qed.

(** C2 at the session that has just succeeded: both cells hold their live
    URL and nothing else is live; selecting another file, and likewise
    "New Project", revokes the preview URL but leaves the video URL live
    with no cell holding it. *)
Theorem video_url_dropped_unrevoked :
  (previewUrl (ui success) = Some 0%nat /\ videoUrl (ui success) = Some 1%nat
   /\ noLeak success)
  /\ ((0%nat ∉ live (onChange (Some photo) success))
      /\ 1%nat ∈ live (onChange (Some photo) success)
      /\ ~ referenced (onChange (Some photo) success) 1%nat
      /\ ~ noLeak (onChange (Some photo) success))
  /\ ((0%nat ∉ live (onNewProject success))
      /\ 1%nat ∈ live (onNewProject success)
      /\ ~ referenced (onNewProject success) 1%nat
      /\ ~ noLeak (onNewProject success)).
Proof.
  assert (Hs : live success = {[1%nat]} ∪ ({[0%nat]} ∪ ∅))
    by (vm_compute; reflexivity).
  assert (Hc : live (onChange (Some photo) success) = {[2%nat]} ∪ {[1%nat]})
    by (vm_compute; reflexivity).
  assert (Hn : live (onNewProject success) = {[1%nat]})
    by (vm_compute; reflexivity).
  assert (Hp : previewUrl (ui success) = Some 0%nat) by (vm_compute; reflexivity).
  assert (Hv : videoUrl (ui success) = Some 1%nat) by (vm_compute; reflexivity).
  assert (Hrc : ~ referenced (onChange (Some photo) success) 1%nat)
    by (intros [H | H]; vm_compute in H; discriminate).
  assert (Hrn : ~ referenced (onNewProject success) 1%nat)
    by (intros [H | H]; vm_compute in H; discriminate).
  assert (Hic : 1%nat ∈ live (onChange (Some photo) success)).
  { rewrite Hc. apply elem_of_union. right. now apply elem_of_singleton. }
  assert (Hin : 1%nat ∈ live (onNewProject success)).
  { rewrite Hn. now apply elem_of_singleton. }
  split; [|split].
  - split; [exact Hp|]. split; [exact Hv|].
    intros u Hu. rewrite Hs in Hu. unfold referenced. rewrite Hp, Hv.
    apply elem_of_union in Hu as [Hu | Hu].
    + apply elem_of_singleton in Hu. right. now rewrite Hu.
    + apply elem_of_union in Hu as [Hu | Hu].
      * apply elem_of_singleton in Hu. left. now rewrite Hu.
      * now apply not_elem_of_empty in Hu.
  - split; [|split; [exact Hic|split; [exact Hrc|]]].
    + rewrite Hc, not_elem_of_union, !elem_of_singleton. split; discriminate.
    + intros Hleak. exact (Hrc (Hleak _ Hic)).
  - split; [|split; [exact Hin|split; [exact Hrn|]]].
    + rewrite Hn, elem_of_singleton. discriminate.
    + intros Hleak. exact (Hrn (Hleak _ Hin)).
Qed.

(** * Further properties of the component *)

(** ** Extensions and stems for every file name *)

Lemma lower_ascii_dot c : Ascii.eqb (JS.lower_ascii c) dot = Ascii.eqb c dot.
Proof. destruct c as [[] [] [] [] [] [] [] []]; reflexivity. Qed.

Lemma lower_ascii_idem c : JS.lower_ascii (JS.lower_ascii c) = JS.lower_ascii c.
Proof. destruct c as [[] [] [] [] [] [] [] []]; reflexivity. Qed.

Lemma toLowerCase_idem s : JS.toLowerCase (JS.toLowerCase s) = JS.toLowerCase s.
Proof.
  induction s as [|c r IH]; simpl; [reflexivity|].
  now rewrite lower_ascii_idem, IH.
Qed.

Lemma hasDot_lower s : hasDot (JS.toLowerCase s) = hasDot s.
Proof.
  induction s as [|c r IH]; simpl; [reflexivity|].
  now rewrite lower_ascii_dot, IH.
Qed.

Lemma split_lower s :
  JS.split dot (JS.toLowerCase s) = map JS.toLowerCase (JS.split dot s).
Proof.
  induction s as [|c r IH]; simpl; [reflexivity|].
  rewrite lower_ascii_dot, IH. destruct (Ascii.eqb c dot); [reflexivity|].
  destruct (JS.split dot r) as [|h t] eqn:Hr; [|reflexivity].
  now apply split_nonempty in Hr.
Qed.

Lemma pop_map (g : string -> string) l :
  JS.pop (map g l) = option_map g (JS.pop l).
Proof.
  induction l as [|x l IH]; [reflexivity|].
  destruct l as [|y l]; [reflexivity|]. exact IH.
Qed.

(** The last piece of a name split at its dots exists and has no dot. *)
Lemma pop_split_no_dot s :
  exists e, JS.pop (JS.split dot s) = Some e /\ hasDot e = false.
Proof.
  induction s as [|c r (e & Hp & He)]; simpl.
  - now exists EmptyString.
  - destruct (Ascii.eqb c dot) eqn:Hc.
    + exists e. split; [|exact He].
      destruct (JS.split dot r) as [|h t] eqn:Hr; [discriminate|exact Hp].
    + destruct (JS.split dot r) as [|h [|h' t]] eqn:Hr; [discriminate| |].
      * injection Hp as <-. exists (String c h). simpl. now rewrite Hc, He.
      * exists e. split; [exact Hp|exact He].
Qed.

(** A name with a dot is a stem, a dot and a dot-free rest. *)
Lemma dotted_decompose s :
  hasDot s = true -> exists b e, s = b +:+ String dot e /\ hasDot e = false.
Proof.
  induction s as [|c r IH]; simpl; [discriminate|].
  intros H. destruct (hasDot r) eqn:Hr.
  - destruct (IH eq_refl) as (b & e & -> & He).
    now exists (String c b), e.
  - rewrite orb_false_r in H. apply Ascii.eqb_eq in H as ->.
    now exists EmptyString, r.
Qed.

(** X1: whatever the file is called, the extension chosen for the input
    path is not empty, contains no dot and is in lower case, so the input
    path splits at its one dot into "input" and that extension. *)
Theorem inputExt_wellformed (f : File) :
  inputExt f <> EmptyString
  /\ hasDot (inputExt f) = false
  /\ JS.toLowerCase (inputExt f) = inputExt f
  /\ JS.split dot (inputPath f) = ["input"; inputExt f].
Proof.
  assert (H : inputExt f <> EmptyString /\ hasDot (inputExt f) = false
              /\ JS.toLowerCase (inputExt f) = inputExt f).
  { unfold inputExt. destruct (pop_split_no_dot (name f)) as (e & -> & He).
    simpl. destruct e as [|c e]; [repeat split; discriminate|].
    change (JS.or_else (JS.toLowerCase (String c e)) "png")
      with (JS.toLowerCase (String c e)).
    repeat split.
    - discriminate.
    - now rewrite hasDot_lower.
    - apply toLowerCase_idem. }
  destruct H as (H1 & H2 & H3). repeat split; try assumption.
  unfold inputPath. change ("input." +:+ inputExt f)
    with ("input" +:+ String dot (inputExt f)).
  rewrite split_app_dot, (split_no_dot _ H2). reflexivity.
Qed.

(** X2: the extension, the input path and the whole argument list depend on
    the file name only up to letter case, and not on the file's bytes. *)
Theorem args_case_insensitive (f g : File) :
  JS.toLowerCase (name f) = JS.toLowerCase (name g) ->
  inputExt f = inputExt g /\ inputPath f = inputPath g /\ args f = args g.
Proof.
  intros H.
  assert (He : inputExt f = inputExt g).
  { unfold inputExt. rewrite <- !pop_map, <- !split_lower. now rewrite H. }
  unfold args, isGif, inputPath. now rewrite He.
Qed.

Lemma args_case_insensitive_witness :
  JS.toLowerCase (name (mkFile "Anim.GIF" [Byte.x47])) =
  JS.toLowerCase (name (mkFile "anim.gif" []))
  /\ args (mkFile "Anim.GIF" [Byte.x47]) = args (mkFile "anim.gif" []).
Proof.
  split; [reflexivity|].
  exact (proj2 (proj2 (args_case_insensitive (mkFile "Anim.GIF" [Byte.x47])
                         (mkFile "anim.gif" []) eq_refl))).
Defined.

(** X3: for a name with a dot, the stem the download name is built from and
    the raw extension the input path is built from are the two sides of the
    name's last dot: put together around a dot they give the name back. *)
Theorem stem_and_extension_recompose (n : string) :
  hasDot n = true ->
  exists e,
    JS.pop (JS.split dot n) = Some e
    /\ hasDot e = false
    /\ JS.substring n 0 (JS.lastIndexOf dot n) +:+ String dot e = n.
Proof.
  intros H. destruct (dotted_decompose n H) as (b & e & -> & He).
  exists e. rewrite (pop_split_ext b e He), (lastIndexOf_dotted b e He),
    js_substring_prefix. repeat split. exact He.
Qed.

Lemma stem_and_extension_recompose_witness :
  hasDot "a.b.JPG" = true
  /\ exists e, JS.pop (JS.split dot "a.b.JPG") = Some e
     /\ hasDot e = false
     /\ JS.substring "a.b.JPG" 0 (JS.lastIndexOf dot "a.b.JPG") +:+ String dot e
        = "a.b.JPG".
Proof.
  split; [reflexivity|].
  exact (stem_and_extension_recompose "a.b.JPG" eq_refl).
Defined.

Lemma app_empty_r_str (s : string) : s +:+ EmptyString = s.
Proof.
  induction s as [|c s IH]; [reflexivity|].
  change (String c (s +:+ EmptyString) = String c s). now rewrite IH.
Qed.

(** X4: for a file with a non-empty name, the download name is a non-empty
    prefix of that name followed by ".mp4". *)
Theorem downloadName_stem (f : File) :
  name f <> EmptyString ->
  exists stem rest,
    stem <> EmptyString
    /\ name f = stem +:+ rest
    /\ downloadName (Some f) = stem +:+ ".mp4".
Proof.
  intros Hn. unfold downloadName.
  destruct (hasDot (name f)) eqn:Hd.
  - destruct (dotted_decompose _ Hd) as (b & e & Hbe & He).
    rewrite Hbe in *. rewrite (lastIndexOf_dotted b e He), js_substring_prefix.
    destruct b as [|c b].
    + exists (String dot e), EmptyString.
      split; [discriminate|]. split; [|reflexivity].
      rewrite app_empty_r_str. reflexivity.
    + exists (String c b), (String dot e).
      split; [discriminate|]. split; reflexivity.
  - rewrite (lastIndexOf_no_dot _ Hd), js_substring_empty by lia.
    exists (name f), EmptyString.
    split; [exact Hn|]. split; [|reflexivity].
    now rewrite app_empty_r_str.
Qed.

Lemma downloadName_stem_witness :
  name (mkFile ".bashrc" []) <> EmptyString
  /\ exists stem rest,
       stem <> EmptyString
       /\ name (mkFile ".bashrc" []) = stem +:+ rest
       /\ downloadName (Some (mkFile ".bashrc" [])) = stem +:+ ".mp4".
Proof.
  assert (H : name (mkFile ".bashrc" []) <> EmptyString) by discriminate.
  split; [exact H|].
  exact (downloadName_stem (mkFile ".bashrc" []) H).
Defined.

(** ** The progress handler on arbitrary fractions *)

Lemma Qfloor_neg (x : Q) : Qfloor x < 0 <-> (x < 0)%Q.
Proof.
  split; intros H.
  - pose proof (Qlt_floor x) as Hlt.
    assert (Hz : (inject_Z (Qfloor x + 1) <= inject_Z 0)%Q)
      by (rewrite <- Zle_Qle; lia).
    change (inject_Z 0) with 0%Q in Hz.
    eapply Qlt_le_trans; eassumption.
  - pose proof (Qfloor_le x) as Hle.
    assert (Hz : (inject_Z (Qfloor x) < inject_Z 0)%Q).
    { change (inject_Z 0) with 0%Q. eapply Qle_lt_trans; eassumption. }
    now rewrite <- Zlt_Qlt in Hz.
Qed.

Lemma times100_mono (p q : Q) :
  (p <= q)%Q -> (JS.times p 100 <= JS.times q 100)%Q.
Proof.
  intros H. unfold JS.times. apply toDouble_mono.
  apply Qmult_le_compat_r; [exact H|discriminate].
Qed.

(** X5: the handler keeps the order of the fractions it is given: a larger
    fraction is never forwarded as a smaller percentage. *)
Theorem onProgress_monotone (p q : Q) :
  (p <= q)%Q -> onProgress p <= onProgress q.
Proof.
  intros H. unfold onProgress, JS.Math_round.
  apply Z.min_le_compat_l, Qfloor_resp_le.
  pose proof (times100_mono p q H). lra.
Qed.

Lemma onProgress_monotone_witness :
  (1 # 3 <= 2 # 3)%Q /\ onProgress (1 # 3) <= onProgress (2 # 3).
Proof.
  assert (H : (1 # 3 <= 2 # 3)%Q) by discriminate.
  split; [exact H|]. exact (onProgress_monotone (1 # 3) (2 # 3) H).
Defined.

(** X6: the handler caps every value at 100 but has no floor: the
    forwarded percentage is negative exactly when the double product of
    the fraction with 100 is below -1/2; it is at most -1 for every
    fraction of -1/100 or less, and never negative for a fraction of
    -1/200 or more. *)
Theorem onProgress_capped_above_only (p : Q) :
  onProgress p <= 100
  /\ (onProgress p < 0 <-> (JS.times p 100 < - (1 # 2))%Q)
  /\ ((p <= - (1 # 100))%Q -> onProgress p <= -1)
  /\ ((- (1 # 200) <= p)%Q -> 0 <= onProgress p).
Proof.
  assert (Hneg : onProgress p < 0 <-> (JS.times p 100 < - (1 # 2))%Q).
  { unfold onProgress, JS.Math_round.
    pose proof (Qfloor_neg (JS.times p 100 + (1 # 2))) as Hn.
    split; intros H.
    - assert (Hf : Qfloor (JS.times p 100 + (1 # 2)) < 0) by lia.
      apply Hn in Hf. lra.
    - assert (Hf : Qfloor (JS.times p 100 + (1 # 2)) < 0) by (apply Hn; lra).
      lia. }
  split; [unfold onProgress; lia|]. split; [exact Hneg|]. split.
  - intros H. pose proof (times100_mono p (- (1 # 100)) H) as Hm.
    assert (Hc : (JS.times (- (1 # 100)) 100 == - 1)%Q)
      by (vm_compute; reflexivity).
    unfold onProgress, JS.Math_round.
    assert (Hf : Qfloor (JS.times p 100 + (1 # 2)) <= Qfloor (- (1 # 2))).
    { apply Qfloor_resp_le. rewrite Hc in Hm. lra. }
    change (Qfloor (- (1 # 2))) with (-1) in Hf. lia.
  - intros H. pose proof (times100_mono (- (1 # 200)) p H) as Hm.
    assert (Hc : (JS.times (- (1 # 200)) 100 == - (1 # 2))%Q)
      by (vm_compute; reflexivity).
    destruct (Z.lt_ge_cases (onProgress p) 0) as [Hlt | Hge]; [|exact Hge].
    apply Hneg in Hlt. rewrite Hc in Hm. lra.
Qed.

Lemma onProgress_fraction_range (p : Q) :
  fraction p -> 0 <= onProgress p <= 100.
Proof.
  intros Hp.
  assert (Hr : 0 <= JS.Math_round (JS.times p 100) <= 100)
    by (apply Math_round_range, times100_range, Hp).
  unfold onProgress. lia.
Qed.

(** Delivering fractions between 0 and 1 keeps the progress value between
    0 and 100. *)
Lemma deliver_range ps u :
  Forall fraction ps -> 0 <= progress u <= 100 ->
  0 <= progress (deliver ps u) <= 100.
Proof.
  intros Hps. revert u. induction Hps as [|p ps Hp _ IH]; intros u Hu.
  - exact Hu.
  - unfold deliver in *. cbn [fold_left]. apply IH. cbn [setProgress progress].
    apply onProgress_fraction_range, Hp.
Qed.

(** ** Every way through a conversion *)

Lemma convertMain_outcome (E : Env) (f : File) (w : World) :
  MainOutcome E f w (convertMain E f w).
Proof.
  unfold convertMain, bind, liftResult.
  destruct (fetchFile E f) as [t | d] eqn:Hfetch.
  - now apply FetchFailed.
  - unfold ret, writeFile, modify, execM, readFile, newObjectURL, createObjectURL.
    cbn [fs ui live nextUrl ffmpegRef execLog].
    fold (runOf E f d w).
    destruct (result (runOf E f d w)) as [t | code] eqn:Hres.
    + now apply (ExecThrew E f w d t).
    + cbn [fs ui live nextUrl ffmpegRef execLog].
      destruct (fsAfter (runOf E f d w) !! outputPath) as [dout|] eqn:Hout.
      * cbn [fs ui live nextUrl ffmpegRef execLog withUI].
        now apply (MainDone E f w d code dout).
      * now apply (OutputMissing E f w d code).
Qed.

Lemma convertCleanup_eq (E : Env) (f : File) (w : World) :
  convertCleanup E f w =
  (inr tt,
   mkWorld (ui w) (live w) (nextUrl w) (ffmpegRef w) (cleanedFs f (fs w))
           (execLog w)).
Proof.
  unfold convertCleanup, tryIgnore, bind, deleteFile, cleanedFs. f_equal.
  destruct (fs w !! inputPath f); cbn [snd fs].
  - destruct (delete (inputPath f) (fs w) !! outputPath); reflexivity.
  - now destruct w.
Qed.

Lemma convertTry_split (E : Env) (f : File) (w : World) :
  convertTry E f w =
  match convertMain E f w with
  | (inr _, w') => convertCleanup E f w'
  | (inl t, w') => (inl t, w')
  end.
Proof.
  unfold convertTry, convertMain, convertCleanup, bind.
  destruct (liftResult (fetchFile E f) w) as [[t | d] w1]; [reflexivity|].
  destruct (writeFile (inputPath f) d w1) as [[t | []] w2]; [reflexivity|].
  destruct (execM E (args f) w2) as [[t | c] w3]; [reflexivity|].
  destruct (readFile E outputPath w3) as [[t | dout] w4]; [reflexivity|].
  destruct (newObjectURL w4) as [[t | u] w5]; [reflexivity|].
  destruct (modify (withUI (setVideoUrl (Some u))) w5) as [[t | []] w6];
    reflexivity.
Qed.

(** The continuation of a call is its main stretch followed, when that
    returns, by the cleanup; [loading] is reset either way. *)
Lemma convertRest_split (E : Env) (f : File) (w : World) :
  convertRest E f w =
  match convertMain E f w with
  | (inr _, w') => withUI (setLoading false) (snd (convertCleanup E f w'))
  | (inl t, w') =>
      withUI (setLoading false) (withUI (setError (Some (failureMessage t))) w')
  end.
Proof.
  unfold convertRest. rewrite convertTry_split.
  destruct (convertMain E f w) as [[t | []] w']; [reflexivity|].
  now rewrite convertCleanup_eq.
Qed.

Lemma cleanedFs_both (f : File) (m : gmap string (list Byte.byte)) din dout :
  m !! inputPath f = Some din -> m !! outputPath = Some dout ->
  cleanedFs f m = delete outputPath (delete (inputPath f) m).
Proof.
  intros Hin Hout. unfold cleanedFs.
  now rewrite Hin, lookup_delete_ne, Hout by apply inputPath_not_output.
Qed.

Lemma cleanedFs_no_input (f : File) (m : gmap string (list Byte.byte)) :
  m !! inputPath f = None -> cleanedFs f m = m.
Proof. intros Hin. unfold cleanedFs. now rewrite Hin. Qed.

Lemma convertToVideo_started (E : Env) (w : World) (f : File) :
  image (ui w) = Some f -> loaded (ui w) = true -> ffmpegRef w = true ->
  convertToVideo E w = convertRest E f (begun w).
Proof.
  intros Hi Hl Hf. unfold convertToVideo.
  now rewrite (convertBegin_started f w Hi Hl Hf).
Qed.

Lemma begun_frame (w : World) :
  ui (begun w) =
    setError None (setProgress 0 (setLoading true (ui w)))
  /\ fs (begun w) = fs w
  /\ execLog (begun w) = execLog w
  /\ nextUrl (begun w) = nextUrl w
  /\ ffmpegRef (begun w) = ffmpegRef w.
Proof. unfold begun. destruct (videoUrl (ui w)); repeat split. Qed.

Lemma runOf_begun (E : Env) (f : File) (d : list Byte.byte) (w : World) :
  runOf E f d (begun w) = runOf E f d w.
Proof.
  unfold runOf. destruct (begun_frame w) as (_ & -> & _). reflexivity.
Qed.

Lemma convertMain_same (E1 E2 : Env) (f : File) (w : World) :
  sameButExitCode E1 E2 -> convertMain E1 f w = convertMain E2 f w.
Proof.
  intros (Hfetch & Herr & Hexec).
  unfold convertMain, bind, liftResult. rewrite <- Hfetch.
  destruct (fetchFile E1 f) as [t | d]; [reflexivity|].
  unfold ret, writeFile, modify, execM, readFile, newObjectURL, createObjectURL.
  cbn [fs ui live nextUrl ffmpegRef execLog].
  destruct (Hexec (args f) (<[inputPath f := d]> (fs w))) as (He & Hf & Hr).
  rewrite <- He, <- Hf, <- Herr.
  destruct (result (exec E1 (args f) (<[inputPath f := d]> (fs w)))) as [t1 | c1],
           (result (exec E2 (args f) (<[inputPath f := d]> (fs w)))) as [t2 | c2];
    try contradiction.
  - now subst.
  - reflexivity.
Qed.

(** X7: the exit code that [ffmpeg.exec] resolves with is not looked at:
    two engines that differ only in the exit codes of their runs lead
    [convertToVideo] to the same world. *)
Theorem convertToVideo_ignores_exit_code (E1 E2 : Env) (w : World) :
  sameButExitCode E1 E2 -> convertToVideo E1 w = convertToVideo E2 w.
Proof.
  intros H. unfold convertToVideo.
  destruct (convertBegin w) as [w' [f|]]; [|reflexivity].
  rewrite !convertRest_split, (convertMain_same E1 E2 f w' H).
  destruct (convertMain E2 f w') as [[t | []] w'']; [reflexivity|].
  now rewrite !convertCleanup_eq.
Qed.

Lemma okEnv_sameButExitCode : sameButExitCode okEnv okEnvExit1.
Proof. repeat split. Qed.

Lemma convertToVideo_ignores_exit_code_witness :
  sameButExitCode okEnv okEnvExit1
  /\ convertToVideo okEnv hasSource = convertToVideo okEnvExit1 hasSource.
Proof.
  split; [exact okEnv_sameButExitCode|].
  exact (convertToVideo_ignores_exit_code okEnv okEnvExit1 hasSource
           okEnv_sameButExitCode).
Defined.

(** X8: when every await of a call that gets past the early returns
    settles, by resolving or by rejecting, the call comes back with
    [loading] false and the image kept, and either with no error and a
    fresh live video URL, or with the failure message of what was thrown
    and the video URL cell and the URL counter as they were.  (An await
    that never settles is outside the model: nothing bounds the engine's
    run, and [finally] is then never reached.) *)
Theorem convertToVideo_settles (E : Env) (w : World) (f : File) :
  image (ui w) = Some f -> loaded (ui w) = true -> ffmpegRef w = true ->
  loading (ui (convertToVideo E w)) = false
  /\ image (ui (convertToVideo E w)) = Some f
  /\ ((error (ui (convertToVideo E w)) = None
       /\ videoUrl (ui (convertToVideo E w)) = Some (nextUrl w)
       /\ nextUrl w ∈ live (convertToVideo E w))
      \/ (exists t,
            error (ui (convertToVideo E w)) = Some (failureMessage t)
            /\ videoUrl (ui (convertToVideo E w)) = videoUrl (ui w)
            /\ nextUrl (convertToVideo E w) = nextUrl w)).
Proof.
  intros Hi Hl Hf. rewrite (convertToVideo_started E w f Hi Hl Hf).
  rewrite convertRest_split.
  destruct (begun_frame w) as (Hui & _ & _ & Hnext & _).
  pose proof (convertMain_outcome E f (begun w)) as Hout.
  inversion Hout as [t Hfetch Heq | d t Hfetch Hres Heq
                    | d code Hfetch Hres Hmiss Heq
                    | d code dout Hfetch Hres Hhave Heq]; clear Hout.
  - cbn [withUI ui setLoading setError loading image error videoUrl nextUrl].
    rewrite Hui, Hnext. cbn [setError setProgress setLoading image videoUrl].
    split; [reflexivity|]. split; [exact Hi|]. right. now exists t.
  - unfold afterRun.
    destruct (deliver_frame (emitted (runOf E f d (begun w))) (ui (begun w)))
      as (_ & _ & Himg & _ & Hvid & _).
    cbn [withUI ui setLoading setError loading image error videoUrl nextUrl].
    rewrite Himg, Hvid, Hui, Hnext.
    cbn [setError setProgress setLoading image videoUrl].
    split; [reflexivity|]. split; [exact Hi|]. right. now exists t.
  - unfold afterRun.
    destruct (deliver_frame (emitted (runOf E f d (begun w))) (ui (begun w)))
      as (_ & _ & Himg & _ & Hvid & _).
    cbn [withUI ui setLoading setError loading image error videoUrl nextUrl].
    rewrite Himg, Hvid, Hui, Hnext.
    cbn [setError setProgress setLoading image videoUrl].
    split; [reflexivity|]. split; [exact Hi|]. right.
    now exists (fsError E outputPath).
  - rewrite convertCleanup_eq. unfold afterRun.
    destruct (deliver_frame (emitted (runOf E f d (begun w))) (ui (begun w)))
      as (_ & _ & Himg & _ & _ & Herr).
    cbn [withUI ui setLoading setVideoUrl loading image error videoUrl nextUrl
         live snd].
    rewrite Himg, Herr, Hui, Hnext.
    cbn [setError setProgress setLoading image error].
    split; [reflexivity|]. split; [exact Hi|]. left.
    repeat split. apply elem_of_union. left. now apply elem_of_singleton.
Qed.

Lemma convertToVideo_settles_witness :
  (image (ui hasSource) = Some photo /\ loaded (ui hasSource) = true
   /\ ffmpegRef hasSource = true)
  /\ loading (ui (convertToVideo failEnv hasSource)) = false.
Proof.
  split; [repeat split|].
  exact (proj1 (convertToVideo_settles failEnv hasSource photo
                  eq_refl eq_refl eq_refl)).
Defined.

Lemma convertMain_fetch_failed (E : Env) (f : File) (w : World) (t : Thrown) :
  fetchFile E f = inl t -> convertMain E f w = (inl t, w).
Proof. intros H. unfold convertMain, bind, liftResult. now rewrite H. Qed.

Lemma convertMain_returned (E : Env) (f : File) (w : World) d code :
  fetchFile E f = inr d -> result (runOf E f d w) = inr code ->
  convertMain E f w =
  match fsAfter (runOf E f d w) !! outputPath with
  | Some _ =>
      (inr tt,
       mkWorld (setVideoUrl (Some (nextUrl w)) (ui (afterRun E f d w)))
               ({[nextUrl w]} ∪ live w) (S (nextUrl w)) (ffmpegRef w)
               (fsAfter (runOf E f d w)) (execLog w ++ [args f]))
  | None => (inl (fsError E outputPath), afterRun E f d w)
  end.
Proof.
  intros Hfetch Hres. unfold convertMain, bind, liftResult. rewrite Hfetch.
  unfold ret, writeFile, modify, execM, readFile, newObjectURL, createObjectURL.
  cbn [fs ui live nextUrl ffmpegRef execLog]. fold (runOf E f d w).
  rewrite Hres. cbn [fs ui live nextUrl ffmpegRef execLog].
  destruct (fsAfter (runOf E f d w) !! outputPath); reflexivity.
Qed.

(** X9: when reading the source file fails, the call ends with that
    failure's message; nothing was written to the virtual file system and
    the engine was not run. *)
Theorem convertToVideo_fetch_fails (E : Env) (w : World) (f : File) (t : Thrown) :
  image (ui w) = Some f -> loaded (ui w) = true -> ffmpegRef w = true ->
  fetchFile E f = inl t ->
  error (ui (convertToVideo E w)) = Some (failureMessage t)
  /\ loading (ui (convertToVideo E w)) = false
  /\ progress (ui (convertToVideo E w)) = 0
  /\ fs (convertToVideo E w) = fs w
  /\ execLog (convertToVideo E w) = execLog w.
Proof.
  intros Hi Hl Hf Hfetch. rewrite (convertToVideo_started E w f Hi Hl Hf).
  rewrite convertRest_split, (convertMain_fetch_failed E f _ t Hfetch).
  destruct (begun_frame w) as (Hui & Hfs & Hlog & _).
  cbn [withUI ui fs execLog setLoading setError error loading progress].
  rewrite Hui, Hfs, Hlog. repeat split.
Qed.

(** An environment in which the source file cannot be read. *)
Lemma convertToVideo_fetch_fails_witness :
  (image (ui hasSource) = Some photo /\ loaded (ui hasSource) = true
   /\ ffmpegRef hasSource = true
   /\ fetchFile (mkEnv (fun _ => inl (ErrorObj "NotReadableError"))
                       (exec okEnv) (fsError okEnv)) photo
      = inl (ErrorObj "NotReadableError"))
  /\ execLog (convertToVideo
                (mkEnv (fun _ => inl (ErrorObj "NotReadableError"))
                       (exec okEnv) (fsError okEnv)) hasSource) = execLog hasSource.
Proof.
  split; [repeat split|].
  exact (proj2 (proj2 (proj2 (proj2
    (convertToVideo_fetch_fails
       (mkEnv (fun _ => inl (ErrorObj "NotReadableError")) (exec okEnv) (fsError okEnv))
       hasSource photo (ErrorObj "NotReadableError")
       eq_refl eq_refl eq_refl eq_refl))))).
Defined.

(** X10: when the run returns, with whatever exit code, but has left no
    output file, the call ends with the file system's error for the output
    path; no URL is created, the run is logged, and the file system stays
    as the run left it, so nothing is deleted. *)
Theorem convertToVideo_output_missing
    (E : Env) (w : World) (f : File) (d : list Byte.byte) (code : Z) :
  image (ui w) = Some f -> loaded (ui w) = true -> ffmpegRef w = true ->
  fetchFile E f = inr d ->
  result (runOf E f d w) = inr code ->
  fsAfter (runOf E f d w) !! outputPath = None ->
  error (ui (convertToVideo E w)) = Some (failureMessage (fsError E outputPath))
  /\ videoUrl (ui (convertToVideo E w)) = videoUrl (ui w)
  /\ nextUrl (convertToVideo E w) = nextUrl w
  /\ execLog (convertToVideo E w) = execLog w ++ [args f]
  /\ fs (convertToVideo E w) = fsAfter (runOf E f d w).
Proof.
  intros Hi Hl Hf Hfetch Hres Hmiss.
  rewrite (convertToVideo_started E w f Hi Hl Hf), convertRest_split.
  rewrite <- (runOf_begun E f d w) in Hres, Hmiss.
  rewrite (convertMain_returned E f (begun w) d code Hfetch Hres), Hmiss.
  unfold afterRun.
  destruct (deliver_frame (emitted (runOf E f d (begun w))) (ui (begun w)))
    as (_ & _ & _ & _ & Hvid & _).
  destruct (begun_frame w) as (Hui & _ & Hlog & Hnext & _).
  cbn [withUI ui fs execLog nextUrl setLoading setError error videoUrl].
  rewrite Hvid, Hui, Hlog, Hnext, (runOf_begun E f d w). repeat split.
Qed.

Lemma convertToVideo_output_missing_witness :
  (image (ui hasSource) = Some photo /\ loaded (ui hasSource) = true
   /\ ffmpegRef hasSource = true
   /\ fetchFile (mkEnv (fetchFile okEnv) (fun a m => mkExec [] m (inr 1))
                       (fsError okEnv)) photo = inr (bytes photo)
   /\ result (runOf (mkEnv (fetchFile okEnv) (fun a m => mkExec [] m (inr 1))
                           (fsError okEnv)) photo (bytes photo) hasSource) = inr 1
   /\ fsAfter (runOf (mkEnv (fetchFile okEnv) (fun a m => mkExec [] m (inr 1))
                            (fsError okEnv)) photo (bytes photo) hasSource)
        !! outputPath = None)
  /\ error (ui (convertToVideo
                  (mkEnv (fetchFile okEnv) (fun a m => mkExec [] m (inr 1))
                         (fsError okEnv)) hasSource))
     = Some "Conversion failed (ErrnoError: FS error). Please try again with a different image.".
Proof.
  split; [repeat split|].
  exact (proj1
    (convertToVideo_output_missing
       (mkEnv (fetchFile okEnv) (fun a m => mkExec [] m (inr 1)) (fsError okEnv))
       hasSource photo (bytes photo) 1 eq_refl eq_refl eq_refl eq_refl eq_refl
       eq_refl)).
Defined.

(** X11: the two deletions share one inner [try]: when the run has left the
    output but not the input, deleting the input throws, the output is not
    deleted either, and the call still ends as a success. *)
Theorem convertToVideo_cleanup_stops_at_first_error
    (E : Env) (w : World) (f : File) (d dout : list Byte.byte) (code : Z) :
  image (ui w) = Some f -> loaded (ui w) = true -> ffmpegRef w = true ->
  fetchFile E f = inr d ->
  result (runOf E f d w) = inr code ->
  fsAfter (runOf E f d w) !! outputPath = Some dout ->
  fsAfter (runOf E f d w) !! inputPath f = None ->
  error (ui (convertToVideo E w)) = None
  /\ videoUrl (ui (convertToVideo E w)) = Some (nextUrl w)
  /\ fs (convertToVideo E w) = fsAfter (runOf E f d w)
  /\ fs (convertToVideo E w) !! outputPath = Some dout.
Proof.
  intros Hi Hl Hf Hfetch Hres Hhave Hnoin.
  rewrite (convertToVideo_started E w f Hi Hl Hf), convertRest_split.
  rewrite <- (runOf_begun E f d w) in Hres, Hhave, Hnoin.
  rewrite (convertMain_returned E f (begun w) d code Hfetch Hres), Hhave.
  rewrite convertCleanup_eq. unfold afterRun.
  destruct (deliver_frame (emitted (runOf E f d (begun w))) (ui (begun w)))
    as (_ & _ & _ & _ & _ & Herr).
  destruct (begun_frame w) as (Hui & _ & _ & Hnext & _).
  cbn [withUI ui fs snd setLoading setVideoUrl error videoUrl].
  rewrite (cleanedFs_no_input f _ Hnoin), Herr, Hui, Hnext.
  rewrite (runOf_begun E f d w) in *. repeat split. exact Hhave.
Qed.

Lemma convertToVideo_cleanup_stops_at_first_error_witness :
  (image (ui hasSource) = Some photo /\ loaded (ui hasSource) = true
   /\ ffmpegRef hasSource = true
   /\ fetchFile (mkEnv (fetchFile okEnv)
                   (fun a m => mkExec [] {[outputPath := [Byte.x00]]} (inr 0))
                   (fsError okEnv)) photo = inr (bytes photo))
  /\ fs (convertToVideo
           (mkEnv (fetchFile okEnv)
              (fun a m => mkExec [] {[outputPath := [Byte.x00]]} (inr 0))
              (fsError okEnv)) hasSource) !! outputPath = Some [Byte.x00].
Proof.
  split; [repeat split|].
  refine (proj2 (proj2 (proj2
    (convertToVideo_cleanup_stops_at_first_error
       (mkEnv (fetchFile okEnv)
          (fun a m => mkExec [] {[outputPath := [Byte.x00]]} (inr 0))
          (fsError okEnv))
       hasSource photo (bytes photo) [Byte.x00] 0 eq_refl eq_refl eq_refl eq_refl
       eq_refl _ _)))).
  - vm_compute. reflexivity.
  - vm_compute. reflexivity.
Defined.

(** X12: if every run emits only fractions between 0 and 1, a progress
    value between 0 and 100 stays between 0 and 100 across any call of
    [convertToVideo]. *)
Theorem convertToVideo_progress_range (E : Env) (w : World) :
  (forall a m, Forall fraction (emitted (exec E a m))) ->
  0 <= progress (ui w) <= 100 ->
  0 <= progress (ui (convertToVideo E w)) <= 100.
Proof.
  intros Hem Hw. unfold convertToVideo, convertBegin.
  destruct (image (ui w)) as [f|]; [|exact Hw].
  destruct (loaded (ui w)); [|exact Hw].
  cbn [withUI ffmpegRef]. destruct (ffmpegRef w); [|cbn; lia].
  fold (begun w). rewrite convertRest_split.
  destruct (begun_frame w) as (Hui & _).
  assert (H0 : 0 <= progress (ui (begun w)) <= 100) by (rewrite Hui; cbn; lia).
  assert (Hrun : forall d, 0 <= progress (ui (afterRun E f d (begun w))) <= 100).
  { intros d. unfold afterRun. cbn [ui]. apply deliver_range; [apply Hem|exact H0]. }
  pose proof (convertMain_outcome E f (begun w)) as Hout.
  inversion Hout; clear Hout;
    try rewrite convertCleanup_eq;
    cbn [withUI ui snd setLoading setError setVideoUrl progress];
    first [exact H0 | apply Hrun].
Qed.

Lemma okEnv_fractions a m : Forall fraction (emitted (exec okEnv a m)).
Proof.
  simpl. apply List.Forall_cons; [split; discriminate|].
  apply List.Forall_cons; [split; discriminate|]. apply List.Forall_nil.
Qed.

Lemma convertToVideo_progress_range_witness :
  0 <= progress (ui hasSource) <= 100
  /\ 0 <= progress (ui (convertToVideo okEnv hasSource)) <= 100.
Proof.
  assert (H : 0 <= progress (ui hasSource) <= 100) by (vm_compute; split; discriminate).
  split; [exact H|].
  exact (convertToVideo_progress_range okEnv hasSource okEnv_fractions H).
Defined.

(** X19: when the run returns and has left both the input and the output
    in place, the call ends without error, with [loading] false and a fresh
    live video URL, and the virtual file system is the one the run left
    minus exactly the input and the output path. *)
Theorem convertToVideo_success
    (E : Env) (w : World) (f : File) (d din dout : list Byte.byte) (code : Z) :
  image (ui w) = Some f -> loaded (ui w) = true -> ffmpegRef w = true ->
  fetchFile E f = inr d ->
  result (runOf E f d w) = inr code ->
  fsAfter (runOf E f d w) !! inputPath f = Some din ->
  fsAfter (runOf E f d w) !! outputPath = Some dout ->
  error (ui (convertToVideo E w)) = None
  /\ loading (ui (convertToVideo E w)) = false
  /\ videoUrl (ui (convertToVideo E w)) = Some (nextUrl w)
  /\ nextUrl w ∈ live (convertToVideo E w)
  /\ fs (convertToVideo E w) !! inputPath f = None
  /\ fs (convertToVideo E w) !! outputPath = None
  /\ (forall path, path <> inputPath f -> path <> outputPath ->
        fs (convertToVideo E w) !! path = fsAfter (runOf E f d w) !! path).
Proof.
  intros Hi Hl Hf Hfetch Hres Hin Hout.
  rewrite (convertToVideo_started E w f Hi Hl Hf), convertRest_split.
  rewrite <- (runOf_begun E f d w) in Hres, Hin, Hout.
  rewrite (convertMain_returned E f (begun w) d code Hfetch Hres), Hout.
  rewrite convertCleanup_eq. unfold afterRun.
  destruct (deliver_frame (emitted (runOf E f d (begun w))) (ui (begun w)))
    as (_ & _ & _ & _ & _ & Herr).
  destruct (begun_frame w) as (Hui & _ & _ & Hnext & _).
  cbn [withUI ui fs live snd setLoading setVideoUrl error videoUrl loading].
  rewrite (cleanedFs_both f _ din dout Hin Hout), Herr, Hui, Hnext.
  rewrite (runOf_begun E f d w) in *.
  split; [reflexivity|]. split; [reflexivity|]. split; [reflexivity|].
  split; [apply elem_of_union; left; now apply elem_of_singleton|].
  split; [|split].
  - rewrite lookup_delete_ne by (apply not_eq_sym, inputPath_not_output).
    apply lookup_delete_eq.
  - apply lookup_delete_eq.
  - intros path Hn1 Hn2. now rewrite !lookup_delete_ne by congruence.
Qed.

Lemma convertToVideo_success_witness :
  (image (ui hasSource) = Some photo /\ loaded (ui hasSource) = true
   /\ ffmpegRef hasSource = true
   /\ fetchFile okEnv photo = inr (bytes photo)
   /\ result (runOf okEnv photo (bytes photo) hasSource) = inr 0
   /\ fsAfter (runOf okEnv photo (bytes photo) hasSource) !! inputPath photo
      = Some (bytes photo)
   /\ fsAfter (runOf okEnv photo (bytes photo) hasSource) !! outputPath
      = Some [Byte.x00])
  /\ error (ui (convertToVideo okEnv hasSource)) = None.
Proof.
  split; [repeat split|].
  exact (proj1
    (convertToVideo_success okEnv hasSource photo (bytes photo) (bytes photo)
       [Byte.x00] 0 eq_refl eq_refl eq_refl eq_refl eq_refl eq_refl eq_refl)).
Defined.

(** X20: every call runs the engine at most once, and then with the
    argument list built for the selected image; a call that returns at the
    first line leaves the virtual file system as it was. *)
Theorem convertToVideo_runs_at_most_once (E : Env) (w : World) :
  (execLog (convertToVideo E w) = execLog w
   \/ exists f, image (ui w) = Some f
                /\ execLog (convertToVideo E w) = execLog w ++ [args f])
  /\ (image (ui w) = None \/ loaded (ui w) = false ->
      fs (convertToVideo E w) = fs w).
Proof.
  split.
  - unfold convertToVideo, convertBegin.
    destruct (image (ui w)) as [f|] eqn:Hi; [|now left].
    destruct (loaded (ui w)); [|now left].
    cbn [withUI ffmpegRef]. destruct (ffmpegRef w); [|now left].
    fold (begun w). rewrite convertRest_split.
    destruct (begun_frame w) as (_ & _ & Hlog & _).
    pose proof (convertMain_outcome E f (begun w)) as Hout.
    inversion Hout; clear Hout; try rewrite convertCleanup_eq;
      unfold afterRun; cbn [withUI execLog snd]; rewrite Hlog;
      first [now left | right; now exists f].
  - intros H. unfold convertToVideo, convertBegin.
    destruct H as [-> | ->]; [reflexivity|].
    now destruct (image (ui w)).
Qed.

(** X21: a call that gets past the early returns revokes the video URL the
    cell held before, whatever the outcome of the conversion. *)
Theorem convertToVideo_revokes_previous_video
    (E : Env) (w : World) (f : File) (v : URL) :
  image (ui w) = Some f -> loaded (ui w) = true -> ffmpegRef w = true ->
  videoUrl (ui w) = Some v -> (v < nextUrl w)%nat ->
  v ∉ live (convertToVideo E w).
Proof.
  intros Hi Hl Hf Hv Hlt.
  rewrite (convertToVideo_started E w f Hi Hl Hf), convertRest_split.
  assert (Hb : v ∉ live (begun w)) by (unfold begun; now apply revokeIfSet_live).
  destruct (begun_frame w) as (_ & _ & _ & Hnext & _).
  pose proof (convertMain_outcome E f (begun w)) as Hout.
  inversion Hout; clear Hout; try rewrite convertCleanup_eq;
    unfold afterRun; cbn [withUI live snd]; try exact Hb.
  rewrite not_elem_of_union, elem_of_singleton. split; [lia|exact Hb].
Qed.

Lemma convertToVideo_revokes_previous_video_witness :
  (image (ui success) = Some photo /\ loaded (ui success) = true
   /\ ffmpegRef success = true /\ videoUrl (ui success) = Some 1%nat
   /\ (1 < nextUrl success)%nat)
  /\ 1%nat ∉ live (convertToVideo failEnv success).
Proof.
  assert (Hlt : (1 < nextUrl success)%nat) by (vm_compute; lia).
  split; [repeat split; exact Hlt|].
  exact (convertToVideo_revokes_previous_video failEnv success photo 1%nat
           eq_refl eq_refl eq_refl eq_refl Hlt).
Defined.

(** ** The preview effect after the handlers *)

Lemma revoke_twice (p : URL) (S0 : gset URL) : S0 ∖ {[p]} ∖ {[p]} = S0 ∖ {[p]}.
Proof.
  apply set_eq. intros x. rewrite !elem_of_difference, elem_of_singleton. tauto.
Qed.

Lemma revoke_other (p n : URL) (S0 : gset URL) :
  p <> n -> ({[n]} ∪ S0 ∖ {[p]}) ∖ {[p]} = {[n]} ∪ S0 ∖ {[p]}.
Proof.
  intros Hne. apply set_eq. intros x.
  rewrite !elem_of_difference, !elem_of_union, !elem_of_difference,
    !elem_of_singleton.
  split; [tauto|]. intros [-> | [Hx Hp]]; split; auto.
Qed.

Lemma onNewProject_eq (w : World) : onNewProject w = newProject w.
Proof.
  unfold onNewProject, previewEffect, newProject.
  cbn [withUI ui setVideoUrl setImage setPreviewUrl previewUrl].
  destruct (previewUrl (ui w)) as [p|] eqn:Hp.
  - rewrite bool_decide_eq_false_2 by discriminate.
    unfold revokeIfSet, revokeObjectURL, withUI.
    cbn [ui live nextUrl ffmpegRef fs execLog].
    now rewrite revoke_twice.
  - now rewrite bool_decide_eq_true_2.
Qed.

Lemma onChange_eq (file : option File) (w : World) :
  (forall p, previewUrl (ui w) = Some p -> (p < nextUrl w)%nat) ->
  onChange file w = handleUpload file w.
Proof.
  intros Hfresh. unfold onChange, previewEffect.
  destruct file as [f|]; [|now rewrite bool_decide_eq_true_2].
  unfold handleUpload, createObjectURL.
  destruct (previewUrl (ui w)) as [p|] eqn:Hp.
  - assert (Hlt : (p < nextUrl w)%nat) by now apply Hfresh.
    unfold revokeIfSet, revokeObjectURL, withUI.
    cbn [ui live nextUrl ffmpegRef fs execLog
         setError setVideoUrl setImage setPreviewUrl previewUrl].
    rewrite bool_decide_eq_false_2 by (intros [= Heq]; lia).
    rewrite revoke_other by lia. reflexivity.
  - unfold revokeIfSet, withUI.
    cbn [ui setError setVideoUrl setImage setPreviewUrl previewUrl].
    now rewrite bool_decide_eq_false_2 by discriminate.
Qed.

(** X13: the cleanup of the effect keyed on the preview URL never revokes
    anything the handlers have not revoked themselves: after "New Project",
    and after a selection in a state whose preview URL was handed out
    earlier, running the effect changes nothing. *)
Theorem preview_effect_redundant (file : option File) (w : World) :
  (forall p, previewUrl (ui w) = Some p -> (p < nextUrl w)%nat) ->
  onChange file w = handleUpload file w /\ onNewProject w = newProject w.
Proof. intros H. split; [now apply onChange_eq|apply onNewProject_eq]. Qed.

Lemma preview_effect_redundant_witness :
  (forall p, previewUrl (ui success) = Some p -> (p < nextUrl success)%nat)
  /\ onChange (Some photo) success = handleUpload (Some photo) success.
Proof.
  assert (H : forall p, previewUrl (ui success) = Some p -> (p < nextUrl success)%nat).
  { intros p Hp. vm_compute in Hp. injection Hp as <-. vm_compute. lia. }
  split; [exact H|]. exact (proj1 (preview_effect_redundant (Some photo) success H)).
Defined.

(** ** What holds of every page reached through events *)

Lemma handleUpload_some_facts (f : File) (w : World) :
  ui (handleUpload (Some f) w) =
    setError None
      (setVideoUrl None
         (setImage (Some f) (setPreviewUrl (Some (nextUrl w)) (ui w))))
  /\ (forall u, u ∈ live (handleUpload (Some f) w) <->
                u = nextUrl w \/ (u ∈ live w /\ previewUrl (ui w) <> Some u))
  /\ nextUrl (handleUpload (Some f) w) = S (nextUrl w)
  /\ ffmpegRef (handleUpload (Some f) w) = ffmpegRef w
  /\ execLog (handleUpload (Some f) w) = execLog w.
Proof.
  unfold handleUpload, createObjectURL.
  destruct (previewUrl (ui w)) as [p|];
    unfold revokeIfSet, revokeObjectURL, withUI;
    cbn [ui live nextUrl ffmpegRef fs execLog]; repeat split;
    try (intros Hu; apply elem_of_union in Hu as [Hu | Hu];
         [left; now apply elem_of_singleton in Hu|right]);
    try (intros [-> | [Hu Hne]]; apply elem_of_union;
         [left; now apply elem_of_singleton|right]).
  - apply elem_of_difference in Hu as [Hu Hne]. split; [exact Hu|].
    rewrite elem_of_singleton in Hne. congruence.
  - apply elem_of_difference. split; [exact Hu|].
    rewrite elem_of_singleton. congruence.
  - split; [exact Hu|discriminate].
  - exact Hu.
Qed.

Lemma newProject_facts (w : World) :
  ui (newProject w) =
    setVideoUrl None (setImage None (setPreviewUrl None (ui w)))
  /\ (forall u, u ∈ live (newProject w) -> u ∈ live w)
  /\ nextUrl (newProject w) = nextUrl w
  /\ ffmpegRef (newProject w) = ffmpegRef w
  /\ execLog (newProject w) = execLog w.
Proof.
  unfold newProject.
  destruct (previewUrl (ui w)) as [p|];
    unfold revokeIfSet, revokeObjectURL, withUI;
    cbn [ui live nextUrl ffmpegRef fs execLog]; repeat split; try tauto.
  intros u Hu. now apply elem_of_difference in Hu as [Hu _].
Qed.

Lemma react_Loaded_inv (E : Env) (p : Page) (ok : bool) :
  pageInv p -> pageInv (react E p (Loaded ok)).
Proof.
  destruct p as [w q]. intros [I1 I2 I3 I4 I5 I6 I7 I8 I9 I10].
  cbn [world pending react] in *. unfold load.
  destruct ok; constructor; unfold withUI;
    cbn [world pending ui live nextUrl ffmpegRef fs execLog setLoaded setError
         loaded loading image previewUrl videoUrl error];
    try assumption; try reflexivity; try discriminate.
Qed.

Lemma react_Change_inv (E : Env) (p : Page) (file : option File) :
  pageInv p -> pageInv (react E p (Change file)).
Proof.
  destruct p as [w q]. intros [I1 I2 I3 I4 I5 I6 I7 I8 I9 I10].
  cbn [world pending react] in *.
  rewrite onChange_eq by (intros u Hu; apply I5, I6, Hu).
  destruct file as [f|]; [|now constructor].
  destruct (handleUpload_some_facts f w) as (Hui & Hlive & Hnext & Hff & Hlog).
  constructor; cbn [world pending]; rewrite ?Hui, ?Hnext, ?Hff, ?Hlog;
    cbn [setError setVideoUrl setImage setPreviewUrl
         loaded loading image previewUrl videoUrl error];
    try assumption.
  - intros u Hu. apply Hlive in Hu as [-> | [Hu _]]; [lia|].
    apply I5 in Hu. lia.
  - intros u [= <-]. apply Hlive. now left.
  - discriminate.
  - split; intros _; eexists; reflexivity.
  - intros g _. split; [reflexivity|]. eexists; reflexivity.
  - intros _. eexists; reflexivity.
Qed.

Lemma react_ClickNewProject_inv (E : Env) (p : Page) :
  pageInv p -> pageInv (react E p ClickNewProject).
Proof.
  destruct p as [w q]. intros Hinv.
  cbn [world pending react] in *.
  destruct (videoUrl (ui w)) as [v|] eqn:Hv; [|exact Hinv].
  destruct Hinv as [I1 I2 I3 I4 I5 I6 I7 I8 I9 I10]. cbn [world pending] in *.
  rewrite onNewProject_eq.
  destruct (newProject_facts w) as (Hui & Hlive & Hnext & Hff & Hlog).
  constructor; cbn [world pending]; rewrite ?Hui, ?Hnext, ?Hff, ?Hlog;
    cbn [setVideoUrl setImage setPreviewUrl
         loaded loading image previewUrl videoUrl error];
    try assumption.
  - intros u Hu. apply I5, Hlive, Hu.
  - discriminate.
  - discriminate.
  - split; intros [x Hx]; discriminate.
  - intros g Hq. destruct (I9 g Hq) as [Hnone _]. congruence.
  - intros [x Hx]; discriminate.
Qed.

Lemma react_ClickCreate_inv (E : Env) (p : Page) :
  pageInv p -> pageInv (react E p ClickCreate).
Proof.
  destruct p as [w q]. intros Hinv.
  cbn [world pending react] in *. unfold clickCreateBegin.
  destruct (videoUrl (ui w)) as [v|] eqn:Hv; [exact Hinv|].
  unfold createDisabled.
  destruct (image (ui w)) as [f|] eqn:Hi;
    [|rewrite bool_decide_eq_false_2 by (intros [x Hx]; discriminate);
      exact Hinv].
  rewrite bool_decide_eq_true_2 by (eexists; reflexivity).
  destruct (loaded (ui w)) eqn:Hl; [|exact Hinv].
  destruct (loading (ui w)) eqn:Hg; [exact Hinv|].
  cbn [negb orb].
  destruct Hinv as [I1 I2 I3 I4 I5 I6 I7 I8 I9 I10]. cbn [world pending] in *.
  rewrite (convertBegin_started f w Hi Hl (I1 Hl)).
  assert (Hq : q = []).
  { destruct q as [|j q]; [reflexivity|].
    assert (Hne : j :: q <> []) by discriminate.
    apply I4 in Hne. rewrite Hg in Hne. discriminate. }
  subst q. rewrite Hv. unfold revokeIfSet, withUI.
  constructor;
    cbn [world pending ui live nextUrl ffmpegRef fs execLog app length
         setError setProgress setLoading
         loaded loading image previewUrl videoUrl error];
    try assumption.
  - intros Hfalse. rewrite Hl in Hfalse. discriminate.
  - lia.
  - split; [discriminate|reflexivity].
  - rewrite Hi, Hv. intros g _. split; [reflexivity|]. eexists; reflexivity.
Qed.

Lemma afterRun_facts (E : Env) (f : File) (d : list Byte.byte) (w : World) :
  sameButProgress (ui w) (ui (afterRun E f d w))
  /\ live (afterRun E f d w) = live w
  /\ nextUrl (afterRun E f d w) = nextUrl w
  /\ ffmpegRef (afterRun E f d w) = ffmpegRef w.
Proof.
  unfold afterRun, sameButProgress. cbn [ui live nextUrl ffmpegRef].
  split; [apply deliver_frame|repeat split].
Qed.

(** A suspended call that fails: the cells keep everything but progress,
    error and [loading]; no URL is created or revoked. *)
Lemma failed_inv (w w' : World) (j : Job) (t : Thrown) :
  pageInv (mkPage w [j]) ->
  sameButProgress (ui w) (ui w') ->
  live w' = live w -> nextUrl w' = nextUrl w -> ffmpegRef w' = ffmpegRef w ->
  pageInv (mkPage (withUI (setLoading false)
                     (withUI (setError (Some (failureMessage t))) w')) []).
Proof.
  intros [I1 I2 I3 I4 I5 I6 I7 I8 I9 I10] (Hld & Hlg & Him & Hpv & Hvd & Her)
    Hlive Hnext Hff.
  cbn [world pending] in *. unfold withUI.
  constructor;
    cbn [world pending ui live nextUrl ffmpegRef fs execLog length
         setError setLoading loaded loading image previewUrl videoUrl error];
    rewrite ?Hld, ?Him, ?Hpv, ?Hvd, ?Hlive, ?Hnext, ?Hff; try assumption.
  - intros Hfalse. destruct (I2 Hfalse) as [_ Hq]. discriminate.
  - lia.
  - split; [discriminate|intros H; now elim H].
  - discriminate.
Qed.

Lemma react_Resume_inv (E : Env) (p : Page) :
  pageInv p -> pageInv (react E p Resume).
Proof.
  destruct p as [w q]. intros Hinv. cbn [world pending react].
  destruct q as [|j q]; [exact Hinv|].
  assert (Hq : q = []).
  { pose proof (inv_one _ Hinv) as Hlen. cbn [pending length] in Hlen.
    destruct q; [reflexivity|cbn [length] in Hlen; lia]. }
  subst q. destruct j as [f | f].
  - pose proof (convertMain_outcome E f w) as Hout.
    inversion Hout as [t Hfetch Heq | d t Hfetch Hres Heq
                      | d code Hfetch Hres Hmiss Heq
                      | d code dout Hfetch Hres Hhave Heq]; clear Hout.
    + apply (failed_inv w w (AtAwait f) t Hinv); repeat split.
    + destruct (afterRun_facts E f d w) as (Hs & Hl & Hn & Hf).
      now apply (failed_inv w _ (AtAwait f) t Hinv).
    + destruct (afterRun_facts E f d w) as (Hs & Hl & Hn & Hf).
      now apply (failed_inv w _ (AtAwait f) _ Hinv).
    + destruct (deliver_frame (emitted (runOf E f d w)) (ui w))
        as (Hld & Hlg & Him & Hpv & Hvd & Her).
      destruct Hinv as [I1 I2 I3 I4 I5 I6 I7 I8 I9 I10].
      cbn [world pending] in *.
      constructor;
        cbn [world pending ui live nextUrl ffmpegRef fs execLog length
             setVideoUrl loaded loading image previewUrl videoUrl error];
        rewrite ?Hld, ?Hlg, ?Him, ?Hpv; try assumption.
      * intros Hfalse. destruct (I2 Hfalse) as [_ Hq]. discriminate.
      * split; [discriminate|]. intros _. apply I4. discriminate.
      * intros u Hu. apply elem_of_union in Hu as [Hu | Hu].
        -- apply elem_of_singleton in Hu. lia.
        -- apply I5 in Hu. lia.
      * intros u Hu. apply elem_of_union. right. now apply I6.
      * intros v [= <-]. split.
        -- apply elem_of_union. left. now apply elem_of_singleton.
        -- intros Hp. apply I6, I5 in Hp. lia.
      * intros g [=].
      * intros _. now apply (I9 f).
  - rewrite convertCleanup_eq.
    destruct Hinv as [I1 I2 I3 I4 I5 I6 I7 I8 I9 I10].
    cbn [world pending] in *. unfold withUI.
    constructor;
      cbn [world pending ui live nextUrl ffmpegRef fs execLog length snd
           setLoading loaded loading image previewUrl videoUrl error];
      try assumption.
    + intros Hfalse. destruct (I2 Hfalse) as [_ Hq]. discriminate.
    + lia.
    + split; [discriminate|intros H; now elim H].
    + discriminate.
Qed.

Lemma initial_inv : pageInv (mkPage initial []).
Proof.
  constructor; cbn; try discriminate; try (intros; lia); auto.
  - split; [discriminate|intros H; now elim H].
  - split; intros [x Hx]; discriminate.
  - intros [x Hx]. discriminate.
Qed.

Lemma react_inv (E : Env) (p : Page) (e : Event) :
  pageInv p -> pageInv (react E p e).
Proof.
  destruct e.
  - apply react_Loaded_inv.
  - apply react_Change_inv.
  - apply react_ClickCreate_inv.
  - apply react_Resume_inv.
  - apply react_ClickNewProject_inv.
Qed.

Lemma runEvents_inv (E : Env) (es : list Event) : pageInv (runEvents E es).
Proof.
  unfold runEvents. generalize initial_inv. generalize (mkPage initial []).
  induction es as [|e es IH]; intros p Hp; [exact Hp|].
  cbn [fold_left]. apply IH, react_inv, Hp.
Qed.

(** X14: through the page's own events at most one call of
    [convertToVideo] is ever suspended, and [loading] is true exactly while
    one is. *)
Theorem one_conversion_in_flight (E : Env) (es : list Event) :
  (length (pending (runEvents E es)) <= 1)%nat
  /\ (loading (ui (world (runEvents E es))) = true <->
      pending (runEvents E es) <> []).
Proof.
  pose proof (runEvents_inv E es) as H.
  split; [apply (inv_one _ H)|apply (inv_loading _ H)].
Qed.

(** X15: through the page's own events a URL held in the preview or video
    cell is always live, the two cells never hold the same URL, and every
    live URL was handed out before the next one. *)
Theorem shown_urls_are_live (E : Env) (es : list Event) :
  (forall u, previewUrl (ui (world (runEvents E es))) = Some u ->
             u ∈ live (world (runEvents E es)))
  /\ (forall v, videoUrl (ui (world (runEvents E es))) = Some v ->
                v ∈ live (world (runEvents E es))
                /\ previewUrl (ui (world (runEvents E es))) <> Some v)
  /\ (forall u, u ∈ live (world (runEvents E es)) ->
                (u < nextUrl (world (runEvents E es)))%nat).
Proof.
  pose proof (runEvents_inv E es) as H.
  split; [apply (inv_preview _ H)|].
  split; [apply (inv_video _ H)|apply (inv_fresh _ H)].
Qed.

(** X16: through the page's own events the image and its preview URL are
    set and cleared together, and whenever a video URL is set an image is
    selected, so the result link never falls back to the default download
    name for lack of an image. *)
Theorem result_has_image (E : Env) (es : list Event) :
  (is_Some (image (ui (world (runEvents E es)))) <->
   is_Some (previewUrl (ui (world (runEvents E es)))))
  /\ (is_Some (videoUrl (ui (world (runEvents E es)))) ->
      exists f, image (ui (world (runEvents E es))) = Some f
                /\ downloadName (image (ui (world (runEvents E es)))) =
                   downloadName (Some f)).
Proof.
  pose proof (runEvents_inv E es) as H.
  split; [apply (inv_image _ H)|].
  intros Hv. destruct (inv_shown _ H Hv) as [f Hf].
  exists f. now rewrite Hf.
Qed.

(** X17: through the page's own events the engine object exists whenever
    [loaded] is true, so the second early return of [convertToVideo] is
    never taken; and as long as [loaded] is false the engine has not been
    run and no call is suspended. *)
Theorem engine_not_run_before_loaded (E : Env) (es : list Event) :
  (loaded (ui (world (runEvents E es))) = true ->
   ffmpegRef (world (runEvents E es)) = true)
  /\ (loaded (ui (world (runEvents E es))) = false ->
      execLog (world (runEvents E es)) = []
      /\ pending (runEvents E es) = []).
Proof.
  pose proof (runEvents_inv E es) as H.
  split; [apply (inv_engine _ H)|apply (inv_idle _ H)].
Qed.

(** ** A selection while a conversion is suspended *)

Lemma previewEffect_frame (old : option URL) (w : World) :
  ui (previewEffect old w) = ui w
  /\ nextUrl (previewEffect old w) = nextUrl w
  /\ fs (previewEffect old w) = fs w
  /\ execLog (previewEffect old w) = execLog w
  /\ ffmpegRef (previewEffect old w) = ffmpegRef w.
Proof.
  unfold previewEffect. destruct (bool_decide _); [repeat split|].
  destruct (revokeIfSet_frame old w) as (H1 & H2 & H3 & H4 & H5).
  repeat split; assumption.
Qed.

Lemma onChange_some_frame (f : File) (w : World) :
  ui (onChange (Some f) w) =
    setError None
      (setVideoUrl None
         (setImage (Some f) (setPreviewUrl (Some (nextUrl w)) (ui w))))
  /\ nextUrl (onChange (Some f) w) = S (nextUrl w)
  /\ fs (onChange (Some f) w) = fs w
  /\ execLog (onChange (Some f) w) = execLog w.
Proof.
  unfold onChange.
  destruct (previewEffect_frame (previewUrl (ui w)) (handleUpload (Some f) w))
    as (-> & -> & -> & -> & _).
  destruct (handleUpload_some_facts f w) as (-> & _ & -> & _ & ->).
  repeat split. unfold handleUpload, createObjectURL.
  now destruct (previewUrl (ui w)).
Qed.

(** X18: the file input stays usable while a conversion is suspended.  If
    another file is selected then, and the suspended call afterwards gets
    its output, the video made from the earlier file is shown while the
    image, and with it the download name, is the later file. *)
Theorem selection_during_conversion
    (E : Env) (w : World) (a b : File) (d dout : list Byte.byte) (code : Z) :
  fetchFile E a = inr d ->
  result (runOf E a d w) = inr code ->
  fsAfter (runOf E a d w) !! outputPath = Some dout ->
  image (ui (world (fold_left (react E) [Change (Some b); Resume]
                      (mkPage w [AtAwait a])))) = Some b
  /\ videoUrl (ui (world (fold_left (react E) [Change (Some b); Resume]
                            (mkPage w [AtAwait a])))) = Some (S (nextUrl w))
  /\ execLog (world (fold_left (react E) [Change (Some b); Resume]
                       (mkPage w [AtAwait a]))) = execLog w ++ [args a]
  /\ downloadName (image (ui (world (fold_left (react E) [Change (Some b); Resume]
                                       (mkPage w [AtAwait a]))))) =
     downloadName (Some b).
Proof.
  intros Hfetch Hres Hhave. cbn [fold_left react world pending].
  destruct (onChange_some_frame b w) as (Hui & Hnext & Hfs & Hlog).
  assert (Hrun : runOf E a d (onChange (Some b) w) = runOf E a d w)
    by (unfold runOf; now rewrite Hfs).
  rewrite (convertMain_returned E a (onChange (Some b) w) d code Hfetch)
    by (now rewrite Hrun).
  unfold afterRun. rewrite !Hrun, Hhave.
  destruct (deliver_frame (emitted (runOf E a d w)) (ui (onChange (Some b) w)))
    as (_ & _ & Himg & _).
  cbn [world ui execLog setVideoUrl image videoUrl].
  rewrite Himg, Hui, Hnext, Hlog.
  cbn [setError setVideoUrl setImage setPreviewUrl image]. repeat split.
Qed.

Lemma selection_during_conversion_witness :
  (fetchFile okEnv photo = inr (bytes photo)
   /\ result (runOf okEnv photo (bytes photo) inFlight) = inr 0
   /\ fsAfter (runOf okEnv photo (bytes photo) inFlight) !! outputPath
      = Some [Byte.x00])
  /\ downloadName
       (image (ui (world (fold_left (react okEnv)
                            [Change (Some (mkFile "cat.gif" [])); Resume]
                            (mkPage inFlight [AtAwait photo])))))
     = "cat.mp4".
Proof.
  split; [repeat split|].
  exact (proj2 (proj2 (proj2
    (selection_during_conversion okEnv inFlight photo (mkFile "cat.gif" [])
       (bytes photo) [Byte.x00] 0 eq_refl eq_refl eq_refl)))).
Defined.
